(** * Rudy (redux-first-router successor): route registry, link resolution,
      link press handling and the pathless-route middleware.

    A shallow embedding of
      - [formatRoutes] and [formatRoute] of [utils/formatRoutes.js], which
        the sources carry behind [src/Link/utils/toUrlAndAction.js]
        (module [Registry]),
      - [src/Link/utils/toUrlAndAction.js] (module [Link]),
      - [src/Link/utils/handlePress.js]    (module [Link]),
      - [src/middleware/pathlessRoute.js]  (module [Middleware]),
    together with the properties of the specification that concern them.

    JavaScript objects are modelled the way the engine keeps them: a plain
    object is the list of its own properties in creation order, and
    [Object.keys] lists the integer-like keys first, in ascending numeric
    order, then the remaining string keys in creation order.  Route records
    live in a store and are referred to by address, because the registry
    build assigns [route.type] in place. *)

From Stdlib Require Import String Ascii List NArith ZArith Lia Bool Permutation.
From stdpp Require Import base list strings.

Import ListNotations.
Local Open Scope string_scope.
Local Open Scope list_scope.

(* ================================================================== *)
(** * Plain JavaScript objects *)
(* ================================================================== *)

Module Obj.

Section Properties.
Context {V : Type}.

(** Own properties, in creation order. *)
Definition t := list (string * V).

(** [o[k]] *)
Fixpoint get (k : string) (o : list (string * V)) : option V :=
  match o with
  | [] => None
  | (k', v) :: o' => if String.eqb k' k then Some v else get k o'
  end.

(** [o[k] = v]: an existing property keeps its place, a new one is
    created last. *)
Fixpoint set (k : string) (v : V) (o : list (string * V)) : list (string * V) :=
  match o with
  | [] => [(k, v)]
  | (k', v') :: o' =>
      if String.eqb k' k then (k', v) :: o' else (k', v') :: set k v o'
  end.

(** Own property names in creation order. *)
Definition names (o : list (string * V)) : list string := map fst o.
End Properties.

Arguments t : clear implicits.

(** ** Integer-like keys

    An array index is the canonical decimal form of an integer below
    [2^32 - 1]: no sign, no leading zero. *)

Definition digit (c : ascii) : option N :=
  let n := N_of_ascii c in
  if ((48 <=? n) && (n <=? 57))%N then Some (n - 48)%N else None.

Fixpoint digits (s : string) (acc : N) : option N :=
  match s with
  | EmptyString => Some acc
  | String c s' =>
      match digit c with
      | Some d => digits s' (acc * 10 + d)%N
      | None => None
      end
  end.

Definition array_index (s : string) : option N :=
  match s with
  | EmptyString => None
  | String c EmptyString => digit c
  | String c _ =>
      if Ascii.eqb c "0"%char then None
      else match digits s 0%N with
           | Some n => if (n <? 4294967295)%N then Some n else None
           | None => None
           end
  end.

Definition is_index (s : string) : bool :=
  match array_index s with Some _ => true | None => false end.

(** Ascending insertion of an integer key. *)
Fixpoint insert_index (k : string) (l : list string) : list string :=
  match l with
  | [] => [k]
  | k' :: l' =>
      match array_index k, array_index k' with
      | Some n, Some n' => if (n <? n')%N then k :: l else k' :: insert_index k l'
      | _, _ => k' :: insert_index k l'
      end
  end.

Definition sort_index (l : list string) : list string :=
  fold_right insert_index [] l.

(** [Object.keys(o)]: integer keys ascending, then string keys in creation
    order. *)
Definition keys {V} (o : t V) : list string :=
  sort_index (List.filter is_index (names o))
    ++ List.filter (fun k => negb (is_index k)) (names o).

(** [Object.assign(target, source)] *)
Definition assign {V} (target source : t V) : t V :=
  fold_left
    (fun acc k => match get k source with
                  | Some v => set k v acc
                  | None => acc
                  end)
    (keys source) target.

End Obj.

(* ================================================================== *)
(** * The route registry: [formatRoutes] *)
(* ================================================================== *)

Module Registry.

(** Callbacks are referred to by identity.  The five maintenance thunks are
    imported by the source from [../pathlessRoutes]. *)
Inductive fn :=
| addRoutes | changeBasename | clearCache | confirm | callHistory
| userFn (id : nat).

(** A route record, with the properties the code at hand reads or writes.
    An absent property is [None]. *)
Record route := mkRoute {
  path : option string;
  thunk : option fn;
  beforeEnter : option fn;
  onComplete : option fn;
  dispatch : option bool;
  type : option string
}.

Definition withType (k : string) (r : route) : route :=
  mkRoute (path r) (thunk r) (beforeEnter r) (onComplete r) (dispatch r) (Some k).

(** The store of route records; an address is a position in it. *)
Abbreviation addr := nat.
Abbreviation heap := (list route).

(** What a routes map holds under a key: a path string, a function, or
    (a reference to) a record. *)
Inductive value :=
| VStr (s : string)
| VFun (f : fn)
| VObj (a : addr).

Definition routesMap := Obj.t value.

(** JavaScript truthiness: the empty string is the only falsy [value]. *)
Definition truthy (v : value) : bool :=
  match v with
  | VStr EmptyString => false
  | _ => true
  end.

(** ** Store-passing computations that may throw *)

Inductive exn :=
| TypeError (msg : string)
| Thrown (payload : string).

Definition M (A : Type) : Type := heap -> exn + (A * heap).

Definition ret {A} (x : A) : M A := fun h => inr (x, h).

Definition bind {A B} (c : M A) (k : A -> M B) : M B :=
  fun h => match c h with
           | inl e => inl e
           | inr (x, h') => k x h'
           end.

Definition throw {A} (e : exn) : M A := fun _ => inl e.

Notation "'let*' x ':=' c 'in' k" := (bind c (fun x => k))
  (at level 10, x name, c at level 100, k at level 200).

(** An object literal: a new record at the next free address. *)
Definition alloc (r : route) : M value :=
  fun h => inr (VObj (length h), h ++ [r]).

(** [route.type = type].  Under strict mode (the source is an ES module)
    assigning a property on a primitive string throws; a property put on a
    function object is not tracked by the store. *)
Definition assignType (v : value) (k : string) : M unit :=
  match v with
  | VObj a => fun h => inr (tt, alter (withType k) a h)
  | VFun _ => ret tt
  | VStr _ => throw (TypeError "Cannot create property 'type' on string")
  end.

(** [v || { ...d }]: the literal is only evaluated when [v] is falsy. *)
Definition orDefault (v : option value) (d : route) : M value :=
  match v with
  | Some v' => if truthy v' then ret v' else alloc d
  | None => alloc d
  end.

(** A custom formatter: called with the (string-normalised) route, its type,
    the routes map and the mode; returns a route record or throws. *)
Definition Formatter := value -> string -> routesMap -> bool -> M addr.

(** The names of the maintenance route types, imported by the source from
    [../types]. *)
Record types := mkTypes {
  ADD_ROUTES : string;
  CHANGE_BASENAME : string;
  CLEAR_CACHE : string;
  CONFIRM : string;
  CALL_HISTORY : string
}.

Definition NOT_FOUND : string := "NOT_FOUND".

Definition maintenance (T : types) : list string :=
  [ADD_ROUTES T; CHANGE_BASENAME T; CLEAR_CACHE T; CONFIRM T; CALL_HISTORY T].

(** ** [formatRoute] *)
Definition formatRoute (r : value) (type : string) (routes : routesMap)
    (formatter : option Formatter) (isAddRoutes : bool) : M value :=
  let* route := match r with
                 | VStr s => alloc (mkRoute (Some s) None None None None None)
                 | _ => ret r
                 end in
  match formatter with
  | Some f => let* a := f route type routes isAddRoutes in ret (VObj a)
  | None =>
      match route with
      | VFun f => alloc (mkRoute None (Some f) None None None None)
      | _ => ret route
      end
  end.

(** The body of [types.forEach(type => ...)].  [routes[type]] is there,
    since [types] was just read off [routes]; reading a missing property
    would end in a [TypeError] at [route.type = type]. *)
Definition formatEntry (formatter : option Formatter) (isAddRoutes : bool)
    (routes : routesMap) (type : string) : M routesMap :=
  let* r := match Obj.get type routes with
            | Some r => ret r
            | None => throw (TypeError "Cannot set property 'type' of undefined")
            end in
  let* route := formatRoute r type routes formatter isAddRoutes in
  let* _ := assignType route type in
  ret (Obj.set type route routes).

Fixpoint forEach (ks : list string) (body : routesMap -> string -> M routesMap)
    (routes : routesMap) : M routesMap :=
  match ks with
  | [] => ret routes
  | k :: ks' => let* routes' := body routes k in forEach ks' body routes'
  end.

(** [routes[k] = input[k] || { ...d }] *)
Definition setDefault (input : routesMap) (k : string) (d : route)
    (routes : routesMap) : M routesMap :=
  let* v := orDefault (Obj.get k input) d in
  ret (Obj.set k v routes).

(** The block guarded by [if (!isAddRoutes)]. *)
Definition seedRoutes (T : types) (input : routesMap) : M routesMap :=
  let* routes := setDefault input NOT_FOUND
                   (mkRoute (Some "/not-found") None None None None None) [] in
  let routes := Obj.assign routes input in
  let* routes := setDefault input (ADD_ROUTES T)
                   (mkRoute None (Some addRoutes) None None (Some false) None)
                   routes in
  let* routes := setDefault input (CHANGE_BASENAME T)
                   (mkRoute None (Some changeBasename) None None (Some false) None)
                   routes in
  let* routes := setDefault input (CLEAR_CACHE T)
                   (mkRoute None (Some clearCache) None None None None)
                   routes in
  let* routes := setDefault input (CONFIRM T)
                   (mkRoute None (Some confirm) None None (Some false) None)
                   routes in
  setDefault input (CALL_HISTORY T)
    (mkRoute None (Some callHistory) None None (Some false) None) routes.

(** ** [formatRoutes] (the default export) *)
Definition formatRoutes (T : types) (input : routesMap)
    (formatter : option Formatter) (isAddRoutes : bool) : M routesMap :=
  let* routes := (if isAddRoutes then ret input else seedRoutes T input) in
  forEach (Obj.keys routes) (formatEntry formatter isAddRoutes) routes.

(** ** Notions used to state the properties of a build *)

(** Every record the map refers to is in the store, and no record is
    referred to under two keys. *)
Definition wellFormed (routes : routesMap) (h : heap) : Prop :=
  (forall k a, Obj.get k routes = Some (VObj a) -> a < length h)
  /\ (forall k1 k2 a,
        Obj.get k1 routes = Some (VObj a) ->
        Obj.get k2 routes = Some (VObj a) -> k1 = k2).

(** The record that default formatting makes of the entry [v] of type [k],
    [h] being the store the entry is read from: the shorthand forms give a
    new record, a record keeps its properties; all get the type. *)
Definition formattedRecord (h : heap) (k : string) (v : value) : option route :=
  match v with
  | VStr s => Some (mkRoute (Some s) None None None None (Some k))
  | VFun f => Some (mkRoute None (Some f) None None None (Some k))
  | VObj a => withType k <$> h !! a
  end.

(** A custom formatter is well behaved when, called on a route of the
    store, the record it returns is the one it was given or one made since
    the call started, and it leaves the [type] of every other record as it
    was. *)
Definition wellBehaved (g : Formatter) : Prop :=
  forall v k routes b h a h',
    (forall a0, v = VObj a0 -> a0 < length h) ->
    g v k routes b h = inr (a, h') ->
    length h <= length h'
    /\ a < length h'
    /\ (v = VObj a \/ length h <= a)
    /\ forall a' r, a' <> a -> h !! a' = Some r ->
          exists r', h' !! a' = Some r' /\ type r' = type r.

(** What holds of the map while it is seeded from [input], [h] being the
    store at the start: a record of the start store is referred to under the
    key the input has it under, a record made since under one key only. *)
Definition seeded (input : routesMap) (h : heap) (routes : routesMap)
    (h' : heap) : Prop :=
  length h <= length h'
  /\ forall k a,
      Obj.get k routes = Some (VObj a) ->
      (a < length h /\ Obj.get k input = Some (VObj a))
      \/ (length h <= a /\ a < length h'
          /\ forall k', Obj.get k' routes = Some (VObj a) -> k' = k).

End Registry.

(* ================================================================== *)
(** * Actions *)
(* ================================================================== *)

Module Action.

(** An action object; a malformed one has no [type]. *)
Record t := mk {
  type : option string;
  params : list (string * string);
  query : list (string * string);
  hash : option string;
  basename : option string
}.

(** [{ ...action, basename }] *)
Definition withBasename (a : t) (bn : string) : t :=
  mk (type a) (params a) (query a) (hash a) (Some bn).

End Action.

(* ================================================================== *)
(** * Link helpers: [toUrlAndAction] and [handlePress] *)
(* ================================================================== *)

Module Link.

(** ** String primitives of the source *)

(** [s.charAt(n)]: a one-character string, or the empty string. *)
Definition charAt (n : nat) (s : string) : string :=
  match String.get n s with
  | Some c => String c EmptyString
  | None => EmptyString
  end.

(** [s.indexOf(sub)] *)
Definition indexOf (s sub : string) : Z :=
  match String.index 0 sub s with
  | Some n => Z.of_nat n
  | None => (-1)%Z
  end.

(** [s.substr(n)] *)
Definition substr (s : string) (n : nat) : string :=
  String.substring n (String.length s - n) s.

(** [l.join(sep)] *)
Definition join (sep : string) (l : list string) : string :=
  String.concat sep l.

(** A non-empty string is truthy. *)
Definition nonEmpty (s : string) : bool :=
  match s with EmptyString => false | _ => true end.

(** ** [findBasename] and [stripBasename] *)

(** [bns.find(bn => path.indexOf(bn) === 0)] *)
Definition findBasename (path : string) (bns : list string) : option string :=
  List.find (fun bn => Z.eqb (indexOf path bn) 0) bns.

Definition stripBasename (path bn : string) : string :=
  if Z.eqb (indexOf path bn) 0 then substr path (String.length bn) else path.

(** ** [toUrlAndAction] *)

(** The [to] prop of a link: absent, [null], a URL string, an array of path
    segments, or an action object. *)
Inductive To :=
| ToUndefined
| ToNull
| ToString (s : string)
| ToArray (l : list string)
| ToAction (a : Action.t).

Inductive exn :=
| TypeError (msg : string)
| Thrown (payload : string).

Record Options := mkOptions {
  basenames : option (list string)
}.

(** What the module imports: [actionToUrl] and [toAction] from [../../utils]
    and [resolvePathname] from the [resolve-pathname] package.  They receive
    [{ routes, options }]; [R] is the type of the routes map. *)
Record Utils (R : Type) := mkUtils {
  actionToUrl : Action.t -> R -> Options -> exn + string;
  toAction : R -> Options -> string -> exn + Action.t;
  resolvePathname : string -> string -> string
}.
Arguments actionToUrl {R}.
Arguments toAction {R}.
Arguments resolvePathname {R}.

Record UrlAndAction := mkResult {
  fullUrl : string;
  action : option Action.t
}.

Definition warning : string := "[rudy/Link] could not create path from action:".

(** What the function has computed when it leaves the [if]/[else if] chain:
    the console output, [url], [basename] and [action]. *)
Record Resolved := mkResolved {
  r_warnings : list string;
  r_url : string;
  r_basename : string;
  r_action : option Action.t
}.

(** Lines 16-48.  [development] is [process.env.NODE_ENV === 'development'];
    the [basename] argument has already received its default [''] . *)
Definition resolveTo {R} (U : Utils R) (development : bool) (to : To)
    (routes : R) (basename : string) (options : Options) : exn + Resolved :=
  match to with
  | ToUndefined => inr (mkResolved [] "#" basename None)
  | ToString EmptyString => inr (mkResolved [] "#" basename None)
  | ToString s => inr (mkResolved [] s basename None)
  | ToArray l =>
      match l with
      | [] => inl (TypeError "Cannot read property 'charAt' of undefined")
      | first :: rest =>
          if String.eqb (charAt 0 first) "/"
          then inr (mkResolved [] ("/" +:+ join "/" rest) first None)
          else inr (mkResolved [] ("/" +:+ join "/" l) basename None)
      end
  | ToAction a =>
      match actionToUrl U a routes options with
      | inr url =>
          let basename' := match Action.basename a with
                           | Some b => b
                           | None => basename
                           end in
          inr (mkResolved [] url basename' (Some a))
      | inl _ =>
          inr (mkResolved (if development then [warning] else []) "#"
                 basename (Some a))
      end
  | ToNull =>
      (* [typeof null === 'object']: the [try] block fails on [null] *)
      inr (mkResolved (if development then [warning] else []) "#" basename None)
  end.

Record Output := mkOutput {
  warnings : list string;
  result : UrlAndAction
}.

(** Lines 50-55: [bn = basenames && findBasename(url, basenames)], and the
    [if (bn)] that follows.  Gives the new [basename] and [url]. *)
Definition selectBasename (options : Options) (basename url : string)
    : string * string :=
  let bn := match basenames options with
            | Some bns => findBasename url bns
            | None => None
            end in
  match bn with
  | Some b => if nonEmpty b then (b, stripBasename url b) else (basename, url)
  | None => (basename, url)
  end.

(** The default export. *)
Definition toUrlAndAction {R} (U : Utils R) (development : bool) (to : To)
    (routes : R) (basename : string) (currentPathname : string)
    (options : Options) : exn + Output :=
  match resolveTo U development to routes basename options with
  | inl e => inl e
  | inr (mkResolved ws url basename action) =>
      let '(basename, url) := selectBasename options basename url in
      let url :=
        if String.eqb (charAt 0 url) "#" then currentPathname +:+ url
        else if negb (String.eqb (charAt 0 url) "/")
             then resolvePathname U url currentPathname
             else url in
      let isExternal := Z.eqb (indexOf url "http") 0 in
      let finish (action : option Action.t) :=
        let action := if nonEmpty basename
                      then Some (match action with
                                 | Some a => Action.withBasename a basename
                                 | None => Action.mk None [] [] None (Some basename)
                                 end)
                      else action in
        let fullUrl := if isExternal then url else basename +:+ url in
        inr (mkOutput ws (mkResult fullUrl action)) in
      match action with
      | None =>
          if negb isExternal
          then match toAction U routes options url with
               | inl e => inl e
               | inr a => finish (Some a)
               end
          else finish None
      | Some a => finish (Some a)
      end
  end.


(** ** [handlePress] *)

(** The fields of the synthetic event the handler reads; [preventDefault]
    tells whether the event carries that method. *)
Record Event := mkEvent {
  defaultPrevented : bool;
  metaKey : bool;
  altKey : bool;
  ctrlKey : bool;
  shiftKey : bool;
  button : Z;
  preventDefault : bool
}.

(** The part of the history object the handler reads. *)
Record History := mkHistory {
  index : Z
}.

(** What the handler does to the outside world, in order. *)
Inductive effect :=
| OnClick
| PreventDefault
| Dispatch (a : Action.t)
| SaveHistory
| SetLocationHref (url : string).

Definition isModified (e : Event) : bool :=
  negb (negb (metaKey e || altKey e || ctrlKey e || shiftKey e)).

(** [onClick] is [false]/absent or a handler returning [true], [false] or
    nothing; [redirect] is imported from [../../actions]. *)
Definition handlePress (redirect : Action.t -> Action.t)
    (action : option Action.t) (shouldDispatch : bool)
    (onClick : option (Event -> option bool)) (target : option string)
    (isRedirect : bool) (fullUrl : string) (history : History)
    (e : Event) : list effect :=
  let prevented := defaultPrevented e in
  let notModified := negb (isModified e) in
  let '(shouldGo, fx1) :=
    match onClick with
    | Some handler =>
        (match handler e with Some false => false | _ => true end, [OnClick])
    | None => (true, [])
    end in
  let noTarget := match target with
                  | Some s => negb (nonEmpty s)
                  | None => true
                  end in
  let fx2 := if noTarget && preventDefault e && notModified
             then [PreventDefault] else [] in
  match action with
  | Some a =>
      if shouldGo && shouldDispatch && noTarget && negb prevented
         && notModified && Z.eqb (button e) 0
      then fx1 ++ fx2 ++ [Dispatch (if isRedirect then redirect a else a)]
      else fx1 ++ fx2
  | None =>
      if noTarget && Z.eqb (indexOf fullUrl "http") 0
      then fx1 ++ fx2
             ++ (if Z.eqb (index history) 0 then [SaveHistory] else [])
             ++ [SetLocationHref fullUrl]
      else fx1 ++ fx2
  end.

(** The actions handed to [dispatch] by a run of the handler. *)
Definition dispatched (fx : list effect) : list Action.t :=
  flat_map (fun x => match x with Dispatch a => [a] | _ => [] end) fx.

End Link.

(* ================================================================== *)
(** * The [pathlessRoute] middleware *)
(* ================================================================== *)

Module Middleware.

(** What a callback, a middleware or the pipeline resolves with. *)
Inductive result :=
| RUndefined
| RFalse
| RAction (a : Action.t).


(** What happens to the request, in order: a route callback is invoked, or
    the action is committed to the store. *)
Inductive event :=
| Called (name : string) (f : Registry.fn)
| Committed (a : Action.t).

(** The request object.  It is shared and mutated by every middleware, so it
    is the state that computations pass along.  [trace] records what was
    done with the request so far. *)
Record Req := mkReq {
  route : option Registry.route;
  action : Action.t;
  trace : list event
}.

Inductive exn :=
| TypeError (msg : string).

Definition M (A : Type) : Type := Req -> exn + (A * Req).

Definition ret {A} (x : A) : M A := fun req => inr (x, req).

Definition bind {A B} (c : M A) (k : A -> M B) : M B :=
  fun req => match c req with
             | inl e => inl e
             | inr (x, req') => k x req'
             end.

Notation "'let*' x ':=' c 'in' k" := (bind c (fun x => k))
  (at level 10, x name, c at level 100, k at level 200).

(** [(req, next) => ...]: [next] is the rest of the chain. *)
Definition middleware := M result -> M result.

(** What calling a callback does to the chain: it lets it proceed, or it
    halts forward progress and the chain resolves with [res] -- a callback
    that answers [false] blocks the transition, one that answers with a
    redirect replaces it. *)
Inductive outcome :=
| Proceeds
| Halts (res : result).

(** What the environment supplies: what calling each callback on a request
    comes to, and [req.commitDispatch]. *)
Record Env := mkEnv {
  run : Registry.fn -> Req -> outcome;
  commitDispatch : Action.t -> Action.t
}.

Definition log (ev : event) (req : Req) : Req :=
  mkReq (route req) (action req) (trace req ++ [ev]).

(** [typeof route[name] === 'function'] gives the function. *)
Definition callbackOf (r : Registry.route) (name : string) : option Registry.fn :=
  if String.eqb name "thunk" then Registry.thunk r
  else if String.eqb name "beforeEnter" then Registry.beforeEnter r
  else if String.eqb name "onComplete" then Registry.onComplete r
  else None.

(** Modelled from the spec: [call(name, config)] of [src/middleware/call],
    which is not part of the sources at hand.  A callback slot is called if
    present; when the callback halts forward progress (it blocks with
    [false], or redirects) the chain resolves there; otherwise the rest of
    the chain runs. *)
Definition call (E : Env) (name : string) : middleware :=
  fun next req =>
    match route req with
    | None => next req
    | Some r =>
        match callbackOf r name with
        | None => next req
        | Some f =>
            match run E f req with
            | Halts res => inr (res, log (Called name f) req)
            | Proceeds => next (log (Called name f) req)
            end
        end
    end.

(** Modelled from the spec: the composer passed as [options.compose], which
    is not part of the sources at hand.  Middlewares run in registration
    order, each receiving the remainder of the chain as [next]; the end of
    the chain resolves with [undefined]. *)
Definition compose (ms : list middleware) : M result :=
  fold_right (fun m rest => m rest) (ret RUndefined) ms.

(** The middleware spliced in at position 1. *)
Definition commit (E : Env) : middleware :=
  fun next req =>
    match route req with
    | None => inl (TypeError "Cannot read property 'dispatch' of undefined")
    | Some r =>
        match Registry.dispatch r with
        | Some false => next req
        | _ =>
            let a := commitDispatch E (action req) in
            next (mkReq (route req) a (trace req ++ [Committed (action req)]))
        end
    end.

(** [names[i] = names[i] || d] *)
Definition nameOr (i : nat) (d : string) (names : list string) : string :=
  match nth_error names i with
  | Some EmptyString => d
  | Some s => s
  | None => d
  end.

Definition withDefaults (names : list string) : list string :=
  [nameOr 0 "thunk" names; nameOr 1 "beforeEnter" names;
   nameOr 2 "onComplete" names] ++ skipn 3 names.


(** [ms.splice(i, 0, m)] *)
Definition splice {A} (i : nat) (m : A) (ms : list A) : list A :=
  firstn i ms ++ m :: skipn i ms.

(** The part of [api] the middleware uses: [api.options.compose] (the
    middleware factories [api => ...] are represented by the middlewares they
    yield) and the names handed to [api.register]. *)
Record Api := mkApi {
  options_compose : list middleware -> M result;
  registered : list string
}.

Definition pipelineOf (E : Env) (names : list string) (api : Api) : M result :=
  let names := withDefaults names in
  let callbacks := [nth 1 names ""; nth 0 names ""; nth 2 names ""] in
  let middlewares := map (call E) callbacks in
  let middlewares := splice 1 (commit E) middlewares in
  options_compose api middlewares.


(** How many times the action was committed along a trace. *)
Definition commits (tr : list event) : nat :=
  List.length (List.filter (fun ev => match ev with
                                      | Committed _ => true
                                      | Called _ _ => false
                                      end) tr).

(** The events of calling a callback slot, when it holds a function. *)
Definition called (name : string) (slot : option Registry.fn) : list event :=
  match slot with
  | Some f => [Called name f]
  | None => []
  end.

End Middleware.

(* ================================================================== *)
(** * Sample data used by the examples below *)
(* ================================================================== *)

Module Samples.

(** Utilities that refuse every action, take any URL to a [PAGE] action and
    keep relative URLs as they are. *)
Definition utils : Link.Utils unit :=
  Link.mkUtils unit
    (fun _ _ _ => inl (Link.Thrown "ParamMismatch"))
    (fun _ _ url => inr (Action.mk (Some "PAGE") [("url", url)] [] None None))
    (fun url _ => url).

Definition second : Action.t :=
  Action.mk (Some "SECOND") [("miss", "bla")] [] None None.

Definition leftClick : Link.Event :=
  Link.mkEvent false false false false false 0 true.

(** A pathless route with a [beforeEnter] and a [thunk], no [dispatch]
    flag. *)
Definition guarded : Registry.route :=
  Registry.mkRoute None (Some (Registry.userFn 1)) (Some (Registry.userFn 0))
    None None None.

Definition ping : Action.t := Action.mk (Some "PING") [] [] None None.

(** An environment whose callbacks all answer [false], and one whose
    callbacks answer nothing. *)
Definition blocking : Middleware.Env :=
  Middleware.mkEnv (fun _ _ => Middleware.Halts Middleware.RFalse) (fun a => a).

Definition passing : Middleware.Env :=
  Middleware.mkEnv (fun _ _ => Middleware.Proceeds) (fun a => a).

Definition api : Middleware.Api := Middleware.mkApi Middleware.compose [].

(** Maintenance types in the style of the library ([@@rudy/...]). *)
Definition types : Registry.types :=
  Registry.mkTypes "@@rudy/ADD_ROUTES" "@@rudy/CHANGE_BASENAME"
    "@@rudy/CLEAR_CACHE" "@@rudy/CONFIRM" "@@rudy/CALL_HISTORY".

(** [{ HOME: '/', POST: fn7, ABOUT: about }] with [about = { path: '/about' }]
    the only record of the store. *)
Definition store : Registry.heap :=
  [Registry.mkRoute (Some "/about") None None None None None].

Definition routes : Registry.routesMap :=
  [("HOME", Registry.VStr "/");
   ("POST", Registry.VFun (Registry.userFn 7));
   ("ABOUT", Registry.VObj 0)].


(** One record stored under two types. *)
Definition shared : Registry.routesMap :=
  [("A", Registry.VObj 0); ("B", Registry.VObj 0)].

(** A custom formatter that turns a bare function into a [beforeEnter]
    callback and keeps records as they are:
    [r => typeof r === 'function' ? { beforeEnter: r } : r]. *)
Definition asBeforeEnter : Registry.Formatter :=
  fun v _ _ _ h =>
    match v with
    | Registry.VFun f =>
        inr (length h,
             h ++ [Registry.mkRoute None None (Some f) None None None])
    | Registry.VObj a => inr (a, h)
    | Registry.VStr _ => inl (Registry.TypeError "not a route")
    end.

(** A custom formatter that answers every entry with the first record of
    the store: [() => about]. *)
Definition alwaysAbout : Registry.Formatter :=
  fun _ _ _ _ h => inr (0, h).

(** Utilities that take an action to the URL '/' followed by its type, and
    otherwise behave as [utils]. *)
Definition typed : Link.Utils unit :=
  Link.mkUtils unit
    (fun a _ _ => match Action.type a with
                  | Some t => inr ("/" +:+ t)
                  | None => inl (Link.Thrown "no type")
                  end)
    (fun _ _ url => inr (Action.mk (Some "PAGE") [("url", url)] [] None None))
    (fun url _ => url).

(** Utilities whose [toAction] finds no route for any URL. *)
Definition strict : Link.Utils unit :=
  Link.mkUtils unit
    (fun _ _ _ => inl (Link.Thrown "ParamMismatch"))
    (fun _ _ _ => inl (Link.Thrown "no route"))
    (fun url _ => url).

(** An action that names its own, empty, basename. *)
Definition rooted : Action.t :=
  Action.mk (Some "SECOND") [] [] None (Some "").

End Samples.

(* ================================================================== *)
(** * Properties of plain objects *)
(* ================================================================== *)

Section ObjFacts.
Context {V : Type}.
Implicit Types (o : Obj.t V) (k : string) (v : V).

Lemma get_set_eq k v o : Obj.get k (Obj.set k v o) = Some v.
Proof.
  induction o as [|[k' v'] o IH]; simpl.
  - now rewrite String.eqb_refl.
  - destruct (String.eqb_spec k' k) as [->|Hne]; simpl.
    + now rewrite String.eqb_refl.
    + destruct (String.eqb_spec k' k); [contradiction|exact IH].
Qed.

Lemma get_set_ne k k' v o :
  k <> k' -> Obj.get k' (Obj.set k v o) = Obj.get k' o.
Proof.
  intros Hne. induction o as [|[k0 v0] o IH]; simpl.
  - destruct (String.eqb_spec k k'); [contradiction|reflexivity].
  - destruct (String.eqb_spec k0 k) as [->|Hk]; simpl.
    + destruct (String.eqb_spec k k'); [contradiction|reflexivity].
    + destruct (String.eqb_spec k0 k'); [reflexivity|exact IH].
Qed.

Lemma get_set k k' v o :
  Obj.get k' (Obj.set k v o)
  = if String.eqb k k' then Some v else Obj.get k' o.
Proof.
  destruct (String.eqb_spec k k') as [->|Hne].
  - apply get_set_eq.
  - now apply get_set_ne.
Qed.

Lemma get_in_names k o : In k (Obj.names o) <-> Obj.get k o <> None.
Proof.
  induction o as [|[k' v'] o IH]; simpl.
  - split; [intros []|congruence].
  - destruct (String.eqb_spec k' k) as [->|Hne].
    + split; [discriminate|now left].
    + rewrite <- IH. split; [intros [H|H]; [contradiction|exact H]|now right].
Qed.

Lemma get_Some_in_names k v o : Obj.get k o = Some v -> In k (Obj.names o).
Proof. intros H. apply get_in_names. congruence. Qed.

Lemma names_set_in k v o :
  In k (Obj.names o) -> Obj.names (Obj.set k v o) = Obj.names o.
Proof.
  induction o as [|[k' v'] o IH]; simpl; [intros []|].
  destruct (String.eqb_spec k' k) as [->|Hne]; [reflexivity|].
  intros [H|H]; [contradiction|]. simpl. f_equal. now apply IH.
Qed.

Lemma names_set_notin k v o :
  ~ In k (Obj.names o) -> Obj.names (Obj.set k v o) = Obj.names o ++ [k].
Proof.
  induction o as [|[k' v'] o IH]; simpl; [reflexivity|].
  intros Hn. destruct (String.eqb_spec k' k) as [->|Hne].
  - exfalso. apply Hn. now left.
  - simpl. f_equal. apply IH. intros H. apply Hn. now right.
Qed.

Lemma in_names_set k k' v o :
  In k' (Obj.names (Obj.set k v o)) <-> k' = k \/ In k' (Obj.names o).
Proof.
  split.
  - intros H. apply get_in_names in H. rewrite get_set in H.
    destruct (String.eqb_spec k k') as [->|Hne]; [now left|].
    right. now apply get_in_names.
  - intros H. apply get_in_names. rewrite get_set.
    destruct (String.eqb_spec k k') as [->|Hne]; [discriminate|].
    destruct H as [->|H]; [contradiction|]. now apply get_in_names.
Qed.

Lemma NoDup_names_set k v o :
  List.NoDup (Obj.names o) -> List.NoDup (Obj.names (Obj.set k v o)).
Proof.
  intros Hnd. destruct (in_dec string_dec k (Obj.names o)) as [Hin|Hn].
  - now rewrite names_set_in.
  - rewrite names_set_notin by assumption.
    apply List.NoDup_app; auto.
    + constructor; [intros []|constructor].
    + intros x Hx [<-|[]]. contradiction.
Qed.

(** The first property stays the first. *)
Lemma names_set_head k v k0 o l :
  Obj.names o = k0 :: l -> exists l', Obj.names (Obj.set k v o) = k0 :: l'.
Proof.
  destruct o as [|[k1 v1] o]; [discriminate|]. simpl. intros [= -> <-].
  destruct (String.eqb k0 k); simpl; eauto.
Qed.

End ObjFacts.

Section KeysFacts.
Context {V : Type}.
Implicit Types (o : Obj.t V) (k : string).

Lemma insert_index_perm k (l : list string) :
  Permutation (Obj.insert_index k l) (k :: l).
Proof.
  induction l as [|k' l IH]; simpl; [reflexivity|].
  destruct (Obj.array_index k) as [n|]; [destruct (Obj.array_index k') as [n'|]|].
  - destruct (n <? n')%N; [reflexivity|].
    rewrite IH. apply perm_swap.
  - rewrite IH. apply perm_swap.
  - rewrite IH. apply perm_swap.
Qed.

Lemma sort_index_perm (l : list string) : Permutation (Obj.sort_index l) l.
Proof.
  induction l as [|k l IH]; simpl; [reflexivity|].
  rewrite insert_index_perm. now constructor.
Qed.

Lemma filter_partition_perm (p : string -> bool) (l : list string) :
  Permutation (List.filter p l ++ List.filter (fun k => negb (p k)) l) l.
Proof.
  induction l as [|k l IH]; simpl; [reflexivity|].
  destruct (p k); simpl.
  - now constructor.
  - rewrite <- Permutation_middle. now constructor.
Qed.

(** [Object.keys] lists every own property once. *)
Lemma keys_perm o : Permutation (Obj.keys o) (Obj.names o).
Proof.
  unfold Obj.keys. rewrite sort_index_perm. apply filter_partition_perm.
Qed.

Lemma in_keys k o : In k (Obj.keys o) <-> In k (Obj.names o).
Proof.
  split; apply Permutation_in; [apply keys_perm|symmetry; apply keys_perm].
Qed.

Lemma NoDup_keys o : List.NoDup (Obj.names o) -> List.NoDup (Obj.keys o).
Proof.
  intros H. eapply Permutation_NoDup; [symmetry; apply keys_perm|exact H].
Qed.

Lemma keys_names_eq o o' : Obj.names o = Obj.names o' -> Obj.keys o = Obj.keys o'.
Proof. unfold Obj.keys. now intros ->. Qed.

Lemma sort_index_all (l : list string) :
  Forall (fun k => Obj.is_index k = true) l ->
  Forall (fun k => Obj.is_index k = true) (Obj.sort_index l).
Proof.
  intros H. rewrite List.Forall_forall in *. intros k Hk. apply H.
  eapply Permutation_in; [apply sort_index_perm|exact Hk].
Qed.

(** A string key created first comes right after the integer keys. *)
Lemma keys_head k0 o l :
  Obj.names o = k0 :: l -> Obj.is_index k0 = false ->
  exists idx rest,
    Obj.keys o = idx ++ k0 :: rest
    /\ Forall (fun k => Obj.is_index k = true) idx.
Proof.
  intros Hn Hk. unfold Obj.keys. rewrite Hn. simpl. rewrite Hk. simpl.
  eexists _, _. split; [reflexivity|].
  apply sort_index_all. rewrite List.Forall_forall. intros k Hin.
  apply List.filter_In in Hin. tauto.
Qed.

End KeysFacts.

Section AssignFacts.
Context {V : Type}.
Implicit Types (o t : Obj.t V) (k : string).

Lemma get_fold_set (src : Obj.t V) (ks : list string) t k :
  Obj.get k
    (fold_left (fun acc k0 => match Obj.get k0 src with
                              | Some v => Obj.set k0 v acc
                              | None => acc
                              end) ks t)
  = match Obj.get k src with
    | Some v => if in_dec string_dec k ks then Some v else Obj.get k t
    | None => Obj.get k t
    end.
Proof.
  revert t. induction ks as [|k0 ks IH]; intros t; simpl.
  - destruct (Obj.get k src); reflexivity.
  - rewrite IH. destruct (Obj.get k src) as [v|] eqn:Hk.
    + destruct (in_dec string_dec k ks) as [Hin|Hn].
      * destruct (string_dec k0 k); reflexivity.
      * destruct (string_dec k0 k) as [->|Hne].
        -- rewrite Hk. apply get_set_eq.
        -- destruct (Obj.get k0 src); [now apply get_set_ne|reflexivity].
    + destruct (Obj.get k0 src) as [v0|] eqn:Hk0; [|reflexivity].
      apply get_set_ne. congruence.
Qed.

(** [Object.assign] copies every property of the source and keeps the
    others. *)
Lemma get_assign t src k :
  Obj.get k (Obj.assign t src)
  = match Obj.get k src with
    | Some v => Some v
    | None => Obj.get k t
    end.
Proof.
  unfold Obj.assign. rewrite get_fold_set.
  destruct (Obj.get k src) as [v|] eqn:Hk; [|reflexivity].
  destruct (in_dec string_dec k (Obj.keys src)) as [Hin|Hn]; [reflexivity|].
  exfalso. apply Hn. apply in_keys. eapply get_Some_in_names. exact Hk.
Qed.

Lemma names_assign_head t src k0 l :
  Obj.names t = k0 :: l -> exists l', Obj.names (Obj.assign t src) = k0 :: l'.
Proof.
  unfold Obj.assign. generalize (Obj.keys src) as ks. intros ks.
  revert t l. induction ks as [|k ks IH]; intros t l Ht; simpl; [eauto|].
  destruct (Obj.get k src) as [v|]; [|eauto].
  destruct (names_set_head k v k0 t l Ht) as (l' & Hl'). eauto.
Qed.

Lemma NoDup_names_assign t src :
  List.NoDup (Obj.names t) -> List.NoDup (Obj.names (Obj.assign t src)).
Proof.
  unfold Obj.assign. generalize (Obj.keys src) as ks. intros ks.
  revert t. induction ks as [|k ks IH]; intros t Ht; simpl; [exact Ht|].
  apply IH. destruct (Obj.get k src); [now apply NoDup_names_set|exact Ht].
Qed.

End AssignFacts.

(* ================================================================== *)
(** * Properties of the route registry *)
(* ================================================================== *)

Section RegistryFacts.
Import Registry.
Implicit Types (T : types) (input routes : routesMap) (h : heap)
  (k : string) (formatter : option Formatter) (b : bool).

(** ** The seeding block *)

Lemma setDefault_run input k d routes h :
  exists v h',
    setDefault input k d routes h = inr (Obj.set k v routes, h')
    /\ ((Obj.get k input = Some v /\ truthy v = true /\ h' = h)
        \/ (v = VObj (length h) /\ h' = h ++ [d]
            /\ forall v0, Obj.get k input = Some v0 -> truthy v0 = false)).
Proof.
  unfold setDefault, bind, orDefault, ret, alloc.
  destruct (Obj.get k input) as [v0|] eqn:Hk.
  - destruct (truthy v0) eqn:Ht.
    + exists v0, h. split; [reflexivity|]. left. auto.
    + eexists _, _. split; [reflexivity|]. right. repeat split.
      intros ? [= <-]. exact Ht.
  - eexists _, _. split; [reflexivity|]. right. repeat split. discriminate.
Qed.

(** Destructs the six defaults of a seeding run. *)
Ltac seed_steps H :=
  unfold seedRoutes in H;
  repeat match type of H with
         | bind (setDefault ?i ?k ?d ?r) _ ?h = _ =>
             let v := fresh "v" in
             let h' := fresh "h" in
             let E := fresh "E" in
             let D := fresh "D" in
             destruct (setDefault_run i k d r h) as (v & h' & E & D);
             unfold bind at 1 in H; rewrite E in H
         | setDefault ?i ?k ?d ?r ?h = _ =>
             let v := fresh "v" in
             let h' := fresh "h" in
             let E := fresh "E" in
             let D := fresh "D" in
             destruct (setDefault_run i k d r h) as (v & h' & E & D);
             rewrite E in H
         end.


Lemma seedRoutes_names T input h routes h' :
  seedRoutes T input h = inr (routes, h') ->
  (exists l, Obj.names routes = NOT_FOUND :: l)
  /\ forall k, In k (maintenance T) -> In k (Obj.names routes).
Proof.
  intros H. seed_steps H. injection H as <- <-. split.
  - destruct (names_assign_head (Obj.set NOT_FOUND v []) input NOT_FOUND [])
      as (l0 & Hl0); [reflexivity|].
    repeat match goal with
           | Hl : Obj.names ?o = NOT_FOUND :: _
             |- context [Obj.set ?k ?w ?o] =>
               let l := fresh "l" in
               let Hn := fresh "Hl" in
               destruct (names_set_head k w NOT_FOUND o _ Hl) as (l & Hn);
               clear Hl
           end.
    eauto.
  - intros k Hk. unfold maintenance in Hk. simpl in Hk.
    repeat rewrite in_names_set.
    intuition auto.
Qed.

(** ** One round of the loop *)

Lemma formatRoute_object r k routes formatter b h v h' :
  formatRoute r k routes formatter b h = inr (v, h') -> exists a, v = VObj a.
Proof.
  unfold formatRoute, bind, ret, alloc.
  destruct r as [s|f|a]; destruct formatter as [g|];
    repeat match goal with
           | |- context [g ?x ?y ?z ?w ?u] => destruct (g x y z w u) as [?|[? ?]]
           end;
    intros [= <- <-] || discriminate; eauto.
Qed.

(** Without a formatter [formatRoute] cannot fail. *)
Lemma formatRoute_default r k routes b h :
  formatRoute r k routes None b h
  = match r with
    | VStr s => inr (VObj (length h), h ++ [mkRoute (Some s) None None None None None])
    | VFun f => inr (VObj (length h), h ++ [mkRoute None (Some f) None None None None])
    | VObj a => inr (VObj a, h)
    end.
Proof. destruct r; reflexivity. Qed.


Lemma formatEntry_inv formatter b routes k h routes' h' :
  formatEntry formatter b routes k h = inr (routes', h') ->
  exists r a, Obj.get k routes = Some r /\ routes' = Obj.set k (VObj a) routes.
Proof.
  unfold formatEntry, bind at 1. destruct (Obj.get k routes) as [r|]; [|discriminate].
  unfold ret at 1, bind at 1.
  destruct (formatRoute r k routes formatter b h) as [e|[v h1]] eqn:Hf; [discriminate|].
  destruct (formatRoute_object _ _ _ _ _ _ _ _ Hf) as (a & ->).
  unfold bind, assignType, ret. intros [= <- <-]. eauto.
Qed.

Lemma formatEntry_names formatter b routes k h routes' h' :
  formatEntry formatter b routes k h = inr (routes', h') ->
  Obj.names routes' = Obj.names routes.
Proof.
  intros H. destruct (formatEntry_inv _ _ _ _ _ _ _ H) as (r & a & Hr & ->).
  apply names_set_in. eapply get_Some_in_names. exact Hr.
Qed.


(** ** The whole loop *)

Lemma forEach_names formatter b ks routes h routes' h' :
  forEach ks (formatEntry formatter b) routes h = inr (routes', h') ->
  Obj.names routes' = Obj.names routes.
Proof.
  revert routes h. induction ks as [|k ks IH]; intros routes h; simpl.
  - unfold ret. now intros [= <- <-].
  - unfold bind.
    destruct (formatEntry formatter b routes k h) as [e|[r1 h1]] eqn:H1; [discriminate|].
    intros H. rewrite (IH _ _ H). eapply formatEntry_names. exact H1.
Qed.


(** What [formatRoutes] computes, in two stages. *)
Lemma formatRoutes_stages T input formatter b h routes h' :
  formatRoutes T input formatter b h = inr (routes, h') ->
  exists routes0 h0,
    (if b then ret input else seedRoutes T input) h = inr (routes0, h0)
    /\ forEach (Obj.keys routes0) (formatEntry formatter b) routes0 h0
       = inr (routes, h')
    /\ Obj.names routes = Obj.names routes0.
Proof.
  unfold formatRoutes, bind at 1.
  destruct ((if b then ret input else seedRoutes T input) h) as [e|[routes0 h0]];
    [discriminate|].
  intros H. exists routes0, h0. repeat split; [exact H|].
  eapply forEach_names. exact H.
Qed.

Lemma seedRoutes_NoDup T input h routes h' :
  seedRoutes T input h = inr (routes, h') -> List.NoDup (Obj.names routes).
Proof.
  intros H. seed_steps H. injection H as <- <-.
  do 5 apply NoDup_names_set. apply NoDup_names_assign.
  simpl. constructor; [intros []|constructor].
Qed.




(** ** Default formatting, step by step *)

Lemma alter_snoc (f : route -> route) h (r : route) :
  alter f (length h) (h ++ [r]) = h ++ [f r].
Proof. rewrite alter_app_r_alt by lia. now rewrite Nat.sub_diag. Qed.

Lemma formatEntry_default b routes k h :
  formatEntry None b routes k h
  = match Obj.get k routes with
    | Some (VStr s) =>
        inr (Obj.set k (VObj (length h)) routes,
             h ++ [mkRoute (Some s) None None None None (Some k)])
    | Some (VFun f) =>
        inr (Obj.set k (VObj (length h)) routes,
             h ++ [mkRoute None (Some f) None None None (Some k)])
    | Some (VObj a) =>
        inr (Obj.set k (VObj a) routes, alter (withType k) a h)
    | None => inl (TypeError "Cannot set property 'type' of undefined")
    end.
Proof.
  unfold formatEntry, bind at 1.
  destruct (Obj.get k routes) as [[s|f|a]|]; try reflexivity;
    unfold ret at 1, bind at 1; rewrite formatRoute_default;
    unfold bind, assignType, ret; now rewrite alter_snoc.
Qed.




(** Default formatting keeps the record an entry refers to and never
    touches a path. *)
Lemma forEach_default_preserves b ks routes h routes' h' :
  forEach ks (formatEntry None b) routes h = inr (routes', h') ->
  (forall k a, Obj.get k routes = Some (VObj a) -> Obj.get k routes' = Some (VObj a))
  /\ (forall a r, h !! a = Some r ->
                  exists r', h' !! a = Some r' /\ path r' = path r).
Proof.
  revert routes h. induction ks as [|k0 ks IH]; intros routes h; simpl.
  - unfold ret. intros [= <- <-]. split; eauto.
  - unfold bind. rewrite formatEntry_default.
    destruct (Obj.get k0 routes) as [[s|f|a0]|] eqn:Hk0; [| | |discriminate];
      intros H; destruct (IH _ _ H) as [IHr IHh]; split.
    + intros k a Hk. apply IHr. rewrite get_set.
      destruct (String.eqb_spec k0 k) as [->|]; [congruence|exact Hk].
    + intros a r Ha. apply IHh. now apply lookup_app_l_Some.
    + intros k a Hk. apply IHr. rewrite get_set.
      destruct (String.eqb_spec k0 k) as [->|]; [congruence|exact Hk].
    + intros a r Ha. apply IHh. now apply lookup_app_l_Some.
    + intros k a Hk. apply IHr. rewrite get_set.
      destruct (String.eqb_spec k0 k) as [->|]; [congruence|exact Hk].
    + intros a r Ha. destruct (decide (a0 = a)) as [->|Hne].
      * destruct (IHh a (withType k0 r)) as (r' & Hr' & Hp).
        { rewrite list_lookup_alter_eq, Ha. reflexivity. }
        exists r'. split; [exact Hr'|exact Hp].
      * apply IHh. now rewrite list_lookup_alter_ne.
Qed.

(** ** What the seeding block leaves in the map *)

Lemma seedRoutes_in_names T input h routes h' k :
  seedRoutes T input h = inr (routes, h') ->
  In k (Obj.names input) -> In k (Obj.names routes).
Proof.
  intros H Hin. seed_steps H. injection H as <- <-.
  repeat (apply in_names_set; right).
  apply get_in_names. rewrite get_assign.
  apply get_in_names in Hin. destruct (Obj.get k input); congruence.
Qed.

Lemma seedRoutes_heap T input h routes h' :
  seedRoutes T input h = inr (routes, h') -> exists ext, h' = h ++ ext.
Proof.
  intros H. seed_steps H. injection H as _ <-.
  repeat match goal with
         | D : _ \/ _ |- _ => destruct D as [(_ & _ & ->)|(_ & -> & _)]
         end;
    rewrite <- ?app_assoc; eauto using app_nil_r.
  all: try (exists []; now rewrite app_nil_r).
Qed.

(** A definition the user supplies is what the seeded map holds, unless it
    is falsy and stands under a maintenance type. *)
Lemma seedRoutes_get_input T input h routes h' k v :
  seedRoutes T input h = inr (routes, h') ->
  Obj.get k input = Some v ->
  truthy v = true \/ ~ In k (maintenance T) ->
  Obj.get k routes = Some v.
Proof.
  intros H Hk Hv. seed_steps H. injection H as <- _.
  assert (Hbase : Obj.get k (Obj.assign (Obj.set NOT_FOUND v0 []) input) = Some v)
    by (rewrite get_assign, Hk; reflexivity).
  assert (Hstep : forall K w (o : routesMap),
    In K (maintenance T) ->
    (Obj.get K input = Some w /\ truthy w = true /\ True
     \/ (forall v0, Obj.get K input = Some v0 -> truthy v0 = false)) ->
    Obj.get k o = Some v -> Obj.get k (Obj.set K w o) = Some v).
  { intros K w o HK Hw Ho. rewrite get_set.
    destruct (String.eqb_spec K k) as [->|]; [|exact Ho].
    destruct Hw as [(Hw & _ & _)|Hf]; [congruence|].
    destruct Hv as [Hv|Hv]; [|contradiction].
    rewrite (Hf v Hk) in Hv. discriminate. }
  unfold maintenance in *.
  apply Hstep; [simpl; tauto|intuition auto|].
  apply Hstep; [simpl; tauto|intuition auto|].
  apply Hstep; [simpl; tauto|intuition auto|].
  apply Hstep; [simpl; tauto|intuition auto|].
  apply Hstep; [simpl; tauto|intuition auto|].
  exact Hbase.
Qed.

(** When the input has no [NOT_FOUND], the seeded map holds a new record
    with path '/not-found' for it. *)
Lemma seedRoutes_not_found_default T input h routes h' :
  seedRoutes T input h = inr (routes, h') ->
  Obj.get NOT_FOUND input = None ->
  ~ In NOT_FOUND (maintenance T) ->
  Obj.get NOT_FOUND routes = Some (VObj (length h))
  /\ h' !! length h
     = Some (mkRoute (Some "/not-found") None None None None None).
Proof.
  intros H Hnf Hm.
  destruct (seedRoutes_heap _ _ _ _ _ H) as (ext & Hext).
  seed_steps H. injection H as <- <-.
  destruct D as [(Hv & _)|(-> & -> & _)]; [congruence|]. split.
  - unfold maintenance in Hm. simpl in Hm.
    rewrite !get_set_ne by (intros Heq; apply Hm; rewrite <- Heq; tauto).
    rewrite get_assign, Hnf. simpl. reflexivity.
  - clear - D0 D1 D2 D3 D4.
    repeat match goal with
           | D : _ \/ _ |- _ => destruct D as [(_ & _ & ->)|(_ & -> & _)]
           end;
      rewrite <- ?app_assoc; apply list_lookup_middle; reflexivity.
Qed.

(** Every entry the loop visits ends up as a record. *)
Lemma forEach_objects formatter b ks routes h routes' h' :
  forEach ks (formatEntry formatter b) routes h = inr (routes', h') ->
  forall k, In k ks \/ (exists a, Obj.get k routes = Some (VObj a)) ->
            exists a, Obj.get k routes' = Some (VObj a).
Proof.
  revert routes h. induction ks as [|k0 ks IH]; intros routes h; simpl.
  - unfold ret. intros [= <- <-] k [[]|H]. exact H.
  - unfold bind.
    destruct (formatEntry formatter b routes k0 h) as [e|[r1 h1]] eqn:H1;
      [discriminate|].
    destruct (formatEntry_inv _ _ _ _ _ _ _ H1) as (r & a1 & Hr & ->).
    intros H k Hk. apply (IH _ _ H).
    destruct (String.eqb_spec k0 k) as [->|Hne].
    + right. exists a1. apply get_set_eq.
    + destruct Hk as [[Hk|Hk]|(a & Hk)]; [contradiction|now left|].
      right. exists a. now rewrite get_set_ne.
Qed.

(** C3 (as amended).  A registry built in initial mode holds a record under
    [NOT_FOUND].  [NOT_FOUND] is the first property created, so in iteration
    order ([Object.keys]) only integer-like types come before it: every
    user-supplied route whose type is not integer-like comes after it.  When
    the input has no [NOT_FOUND] (and no maintenance type is spelled
    NOT_FOUND), default formatting leaves a new record with path
    '/not-found' under it. *)
Theorem formatRoutes_not_found_before_string_types
    T input formatter h routes h' :
  formatRoutes T input formatter false h = inr (routes, h') ->
  (exists a, Obj.get NOT_FOUND routes = Some (VObj a))
  /\ (exists idx rest,
        Obj.keys routes = idx ++ NOT_FOUND :: rest
        /\ Forall (fun k => Obj.is_index k = true) idx
        /\ forall k, In k (Obj.names input) -> Obj.is_index k = false ->
                     k <> NOT_FOUND -> In k rest)
  /\ (Obj.get NOT_FOUND input = None -> ~ In NOT_FOUND (maintenance T) ->
      formatter = None ->
      exists r, Obj.get NOT_FOUND routes = Some (VObj (length h))
                /\ h' !! length h = Some r
                /\ path r = Some "/not-found").
Proof.
  intros H.
  destruct (formatRoutes_stages _ _ _ _ _ _ _ H) as (r0 & h0 & Hs & Hloop & Hn).
  destruct (seedRoutes_names _ _ _ _ _ Hs) as ((l & Hl) & _).
  assert (Hnf : In NOT_FOUND (Obj.keys r0)).
  { apply in_keys. rewrite Hl. now left. }
  split; [|split].
  - apply (forEach_objects _ _ _ _ _ _ _ Hloop). now left.
  - destruct (keys_head NOT_FOUND routes l) as (idx & rest & Hk & Hidx);
      [congruence|reflexivity|].
    exists idx, rest. repeat split; auto.
    intros k Hin Hni Hne.
    assert (Hkeys : In k (Obj.keys routes)).
    { apply in_keys. rewrite Hn. eapply seedRoutes_in_names; eassumption. }
    rewrite Hk in Hkeys. apply in_app_or in Hkeys.
    destruct Hkeys as [Hi|[He|Hr]]; [|congruence|exact Hr].
    rewrite List.Forall_forall in Hidx. rewrite (Hidx k Hi) in Hni. discriminate.
  - intros Hnone Hm ->.
    destruct (seedRoutes_not_found_default _ _ _ _ _ Hs Hnone Hm) as [Hg Hh].
    destruct (forEach_default_preserves _ _ _ _ _ _ Hloop) as [Hr Hp].
    destruct (Hp _ _ Hh) as (r & Hr' & Hpath).
    exists r. repeat split; auto.
Qed.

(** The sample routes have no [NOT_FOUND]: the build adds the record
    [{ path: '/not-found' }]. *)
Lemma formatRoutes_not_found_witness :
  exists routes h',
    formatRoutes Samples.types Samples.routes None false Samples.store
    = inr (routes, h')
    /\ (exists a, Obj.get NOT_FOUND routes = Some (VObj a))
    /\ exists r, h' !! 1 = Some r /\ path r = Some "/not-found".
Proof.
  eexists _, _. split; [vm_compute; reflexivity|].
  destruct (formatRoutes_not_found_before_string_types Samples.types
              Samples.routes None Samples.store _ _ eq_refl)
    as (Hrec & _ & Hdef).
  split; [exact Hrec|].
  destruct Hdef as (r & _ & Hr & Hp); [reflexivity| |reflexivity|eauto].
  simpl. intuition discriminate.
Defined.

(** C3 as stated fails: a catch-all route registered under the type '404'
    is created after [NOT_FOUND], yet iteration meets it first, because
    integer-like property names are enumerated before the others. *)
Lemma formatRoutes_integer_type_precedes_not_found :
  exists routes h',
    formatRoutes Samples.types [("404", VStr "/:param?")] None false []
    = inr (routes, h')
    /\ Obj.names routes
       = ["NOT_FOUND"; "404"; "@@rudy/ADD_ROUTES"; "@@rudy/CHANGE_BASENAME";
          "@@rudy/CLEAR_CACHE"; "@@rudy/CONFIRM"; "@@rudy/CALL_HISTORY"]
    /\ Obj.keys routes
       = ["404"; "NOT_FOUND"; "@@rudy/ADD_ROUTES"; "@@rudy/CHANGE_BASENAME";
          "@@rudy/CLEAR_CACHE"; "@@rudy/CONFIRM"; "@@rudy/CALL_HISTORY"].
Proof.
  eexists _, _. split; [vm_compute; reflexivity|]. split; reflexivity.
Qed.

(** ** Default formatting of a well-formed map *)

Lemma get_set_same k (v : value) routes k' :
  Obj.get k routes = Some v -> Obj.get k' (Obj.set k v routes) = Obj.get k' routes.
Proof.
  intros H. rewrite get_set. destruct (String.eqb_spec k k') as [<-|]; congruence.
Qed.

Lemma formattedRecord_type h k v r :
  formattedRecord h k v = Some r -> type r = Some k.
Proof.
  destruct v as [s|f|a]; simpl.
  - now intros [= <-].
  - now intros [= <-].
  - destruct (h !! a); simpl; [|discriminate]. now intros [= <-].
Qed.

(** One round on a well-formed map: the entry becomes the record
    [formattedRecord] describes, at an address no other entry refers to, and
    no other record changes. *)
Lemma formatEntry_default_step b routes k v h :
  wellFormed routes h ->
  Obj.get k routes = Some v ->
  exists a1 r1 h1,
    formatEntry None b routes k h = inr (Obj.set k (VObj a1) routes, h1)
    /\ h1 !! a1 = Some r1
    /\ formattedRecord h k v = Some r1
    /\ (forall a0, v = VObj a0 -> a1 = a0)
    /\ wellFormed (Obj.set k (VObj a1) routes) h1
    /\ (forall a, a < length h -> a <> a1 -> h1 !! a = h !! a)
    /\ (forall k' a, k' <> k -> Obj.get k' routes = Some (VObj a) -> a <> a1).
Proof.
  intros [Hb Hinj] Hk. rewrite formatEntry_default, Hk.
  assert (Hfresh : forall r : route,
    wellFormed (Obj.set k (VObj (length h)) routes) (h ++ [r])
    /\ (forall a, a < length h -> a <> length h -> (h ++ [r]) !! a = h !! a)
    /\ (forall k' a, k' <> k -> Obj.get k' routes = Some (VObj a) -> a <> length h)).
  { intros r. split; [split|split].
    - intros k' a. rewrite get_set, length_app. simpl.
      destruct (String.eqb_spec k k') as [<-|Hne].
      + intros [= <-]. lia.
      + intros H. apply Hb in H. lia.
    - intros k1 k2 a. rewrite !get_set.
      destruct (String.eqb_spec k k1) as [<-|H1];
        destruct (String.eqb_spec k k2) as [<-|H2]; auto.
      + intros [= <-] H. apply Hb in H. lia.
      + intros H [= <-]. apply Hb in H. lia.
      + apply Hinj.
    - intros a Ha _. now apply lookup_app_l.
    - intros k' a _ H. apply Hb in H. lia. }
  destruct v as [s|f|a0].
  - destruct (Hfresh (mkRoute (Some s) None None None None (Some k)))
      as (Hw & Hl & Hd).
    eexists _, _, _. split; [reflexivity|].
    split; [now apply list_lookup_middle|]. split; [reflexivity|].
    split; [discriminate|]. auto.
  - destruct (Hfresh (mkRoute None (Some f) None None None (Some k)))
      as (Hw & Hl & Hd).
    eexists _, _, _. split; [reflexivity|].
    split; [now apply list_lookup_middle|]. split; [reflexivity|].
    split; [discriminate|]. auto.
  - pose proof (Hb _ _ Hk) as Ha0.
    destruct (lookup_lt_is_Some_2 h a0 Ha0) as (r0 & Hr0).
    exists a0, (withType k r0), (alter (withType k) a0 h).
    split; [reflexivity|].
    split; [now rewrite list_lookup_alter_eq, Hr0|].
    split; [simpl; now rewrite Hr0|].
    split; [now intros ? [= <-]|]. split; [split|split].
    + intros k' a. rewrite get_set_same by exact Hk. rewrite length_alter. apply Hb.
    + intros k1 k2 a. rewrite !get_set_same by exact Hk. apply Hinj.
    + intros a _ Hne. apply list_lookup_alter_ne. congruence.
    + intros k' a Hne H ->. apply Hne. eapply Hinj; eassumption.
Qed.

(** The loop on a well-formed map, over distinct keys. *)
Lemma forEach_default_spec b ks routes h routes' h' :
  wellFormed routes h ->
  List.NoDup ks ->
  forEach ks (formatEntry None b) routes h = inr (routes', h') ->
  (forall k v, In k ks -> Obj.get k routes = Some v ->
     exists a r, Obj.get k routes' = Some (VObj a)
                 /\ h' !! a = Some r
                 /\ formattedRecord h k v = Some r
                 /\ forall a0, v = VObj a0 -> a = a0)
  /\ (forall k, ~ In k ks ->
       Obj.get k routes' = Obj.get k routes
       /\ forall a, Obj.get k routes = Some (VObj a) -> h' !! a = h !! a).
Proof.
  revert routes h. induction ks as [|k0 ks IH]; intros routes h Hwf Hnd; simpl.
  - unfold ret. intros [= <- <-]. split; [intros ? ? []|auto].
  - apply List.NoDup_cons_iff in Hnd. destruct Hnd as [Hk0 Hnd].
    unfold bind. destruct (Obj.get k0 routes) as [v0|] eqn:Hg0.
    2:{ rewrite formatEntry_default, Hg0. discriminate. }
    destruct (formatEntry_default_step b routes k0 v0 h Hwf Hg0)
      as (a1 & r1 & h1 & Hrun & Hr1 & Hrec & Hsame & Hwf1 & Hframe & Hdiff).
    rewrite Hrun. intros H.
    destruct (IH _ _ Hwf1 Hnd H) as [IH1 IH2].
    destruct (IH2 k0 Hk0) as [Hk0' Hh0'].
    rewrite get_set_eq in Hk0'. specialize (Hh0' a1 (get_set_eq _ _ _)).
    assert (Hother : forall k a, k <> k0 -> Obj.get k routes = Some (VObj a) ->
                                 h1 !! a = h !! a).
    { intros k a Hne Hk. apply Hframe; [eapply Hwf; exact Hk|].
      eapply Hdiff; eassumption. }
    split.
    + intros k v [<-|Hin] Hk.
      * assert (v = v0) as -> by congruence.
        exists a1, r1. rewrite Hh0'. auto.
      * assert (Hne : k <> k0) by congruence.
        destruct (IH1 k v Hin) as (a & r & Ha & Hr & Hf & Hs).
        { rewrite get_set_ne by congruence. exact Hk. }
        exists a, r. repeat split; auto.
        destruct v as [s|f|a']; try exact Hf.
        simpl in *. now rewrite <- (Hother k a' Hne Hk).
    + intros k Hk.
      assert (Hne : k <> k0) by (intros ->; apply Hk; now left).
      assert (Hks : ~ In k ks) by (intros Hin; apply Hk; now right).
      destruct (IH2 k Hks) as [Hg Hh]. rewrite get_set_ne in Hg by congruence.
      split; [exact Hg|]. intros a Ha. rewrite Hh.
      * eapply Hother; eassumption.
      * rewrite get_set_ne by congruence. exact Ha.
Qed.

(** ** Seeding keeps the map well-formed *)

Lemma seeded_set_input input h routes h1 k v :
  (forall k a, Obj.get k input = Some (VObj a) -> a < length h) ->
  Obj.get k input = Some v ->
  seeded input h routes h1 -> seeded input h (Obj.set k v routes) h1.
Proof.
  intros Hb Hk [Hlen Hinv]. split; [exact Hlen|].
  intros k' a. rewrite get_set. destruct (String.eqb_spec k k') as [<-|Hne].
  - intros [= ->]. left. split; [eapply Hb; exact Hk|exact Hk].
  - intros H. destruct (Hinv _ _ H) as [Hl|(H1 & H2 & Hu)]; [now left|].
    right. repeat split; auto. intros k2. rewrite get_set.
    destruct (String.eqb_spec k k2) as [<-|]; [|apply Hu].
    intros [= ->]. apply Hb in Hk. lia.
Qed.

Lemma seeded_set_fresh input h routes h1 k d :
  seeded input h routes h1 ->
  seeded input h (Obj.set k (VObj (length h1)) routes) (h1 ++ [d]).
Proof.
  intros [Hlen Hinv]. split; [rewrite length_app; lia|].
  assert (Hlt : forall k' a, Obj.get k' routes = Some (VObj a) -> a < length h1).
  { intros k' a H. destruct (Hinv _ _ H) as [[? _]|(_ & ? & _)]; lia. }
  intros k' a. rewrite get_set, length_app. simpl.
  destruct (String.eqb_spec k k') as [<-|Hne].
  - intros [= <-]. right. repeat split; [lia..|].
    intros k2. rewrite get_set. destruct (String.eqb_spec k k2) as [<-|]; auto.
    intros H. apply Hlt in H. lia.
  - intros H. destruct (Hinv _ _ H) as [Hl|(H1 & H2 & Hu)]; [now left|].
    right. repeat split; [lia..|]. intros k2. rewrite get_set.
    destruct (String.eqb_spec k k2) as [<-|]; [|apply Hu].
    intros [= <-]. lia.
Qed.

Lemma seeded_assign input h routes h1 :
  (forall k a, Obj.get k input = Some (VObj a) -> a < length h) ->
  seeded input h routes h1 -> seeded input h (Obj.assign routes input) h1.
Proof.
  intros Hb [Hlen Hinv]. split; [exact Hlen|].
  intros k a. rewrite get_assign.
  destruct (Obj.get k input) as [v|] eqn:Hk.
  - intros [= ->]. left. split; [eapply Hb; exact Hk|reflexivity].
  - intros H. destruct (Hinv _ _ H) as [[_ Hl]|(H1 & H2 & Hu)]; [congruence|].
    right. repeat split; auto. intros k2. rewrite get_assign.
    destruct (Obj.get k2 input) as [v2|] eqn:Hk2; [|apply Hu].
    intros [= ->]. apply Hb in Hk2. lia.
Qed.

Lemma seeded_default input h routes h1 k d routes' h2 :
  (forall k a, Obj.get k input = Some (VObj a) -> a < length h) ->
  seeded input h routes h1 ->
  setDefault input k d routes h1 = inr (routes', h2) ->
  seeded input h routes' h2.
Proof.
  intros Hb Hs H.
  destruct (setDefault_run input k d routes h1) as (v & h' & E & D).
  rewrite E in H. injection H as <- <-.
  destruct D as [(Hv & _ & ->)|(-> & -> & _)].
  - eapply seeded_set_input; eassumption.
  - now apply seeded_set_fresh.
Qed.

Lemma seeded_wellFormed input h routes h1 :
  wellFormed input h -> seeded input h routes h1 -> wellFormed routes h1.
Proof.
  intros [Hb Hinj] [Hlen Hinv]. split.
  - intros k a H. destruct (Hinv _ _ H) as [[? _]|(_ & ? & _)]; lia.
  - intros k1 k2 a H1 H2.
    destruct (Hinv _ _ H1) as [[Hl1 Hi1]|(Hg1 & _ & Hu1)].
    + destruct (Hinv _ _ H2) as [[_ Hi2]|(Hg2 & _)]; [|lia].
      eapply Hinj; eassumption.
    + symmetry. now apply Hu1.
Qed.

Lemma seedRoutes_wellFormed T input h routes h' :
  wellFormed input h ->
  seedRoutes T input h = inr (routes, h') ->
  wellFormed routes h'.
Proof.
  intros Hwf H. apply (seeded_wellFormed input h); [exact Hwf|].
  destruct Hwf as [Hb _].
  assert (H0 : seeded input h [] h).
  { split; [lia|]. intros k a. discriminate. }
  seed_steps H. injection H as <- <-.
  pose proof (seeded_default _ _ _ _ _ _ _ _ Hb H0 E) as H1.
  pose proof (seeded_assign _ _ _ _ Hb H1) as H1'.
  pose proof (seeded_default _ _ _ _ _ _ _ _ Hb H1' E0) as H2.
  pose proof (seeded_default _ _ _ _ _ _ _ _ Hb H2 E1) as H3.
  pose proof (seeded_default _ _ _ _ _ _ _ _ Hb H3 E2) as H4.
  pose proof (seeded_default _ _ _ _ _ _ _ _ Hb H4 E3) as H5.
  exact (seeded_default _ _ _ _ _ _ _ _ Hb H5 E4).
Qed.

(** ** Types after formatting, with or without a formatter *)

(** One round on a well-formed map, as far as types go: the entry becomes a
    record of the right type, at an address no other entry refers to, and
    the other records keep their type. *)
Lemma formatEntry_step_types formatter b routes k v h routes1 h1 :
  (forall g, formatter = Some g -> wellBehaved g) ->
  wellFormed routes h ->
  Obj.get k routes = Some v ->
  formatEntry formatter b routes k h = inr (routes1, h1) ->
  exists a1 r1,
    routes1 = Obj.set k (VObj a1) routes
    /\ h1 !! a1 = Some r1 /\ type r1 = Some k
    /\ wellFormed routes1 h1
    /\ (forall a r, a <> a1 -> h !! a = Some r ->
          exists r', h1 !! a = Some r' /\ type r' = type r)
    /\ (forall k' a, k' <> k -> Obj.get k' routes = Some (VObj a) -> a <> a1).
Proof.
  intros Hg Hwf Hk. destruct formatter as [g|].
  2:{ destruct (formatEntry_default_step b routes k v h Hwf Hk)
        as (a1 & r1 & h1' & Hrun & Hr1 & Hrec & _ & Hwf1 & Hframe & Hdiff).
      rewrite Hrun. intros [= <- <-]. exists a1, r1.
      repeat split; try apply Hwf1; auto.
      - eapply formattedRecord_type. exact Hrec.
      - intros a r Hne Ha. exists r. split; [|reflexivity].
        rewrite Hframe; auto. eapply lookup_lt_Some. exact Ha. }
  specialize (Hg g eq_refl). destruct Hwf as [Hb Hinj].
  unfold formatEntry, bind at 1. rewrite Hk. unfold ret at 1, bind at 1.
  unfold formatRoute, bind at 1.
  set (wrapped := match v with
                  | VStr s => alloc (mkRoute (Some s) None None None None None)
                  | _ => ret v
                  end h).
  assert (Hwrap : exists v' hm,
    wrapped = inr (v', hm)
    /\ length h <= length hm
    /\ (forall a r, h !! a = Some r -> hm !! a = Some r)
    /\ (forall a, v' = VObj a -> v = VObj a \/ length h <= a)
    /\ (forall a, v' = VObj a -> a < length hm)).
  { subst wrapped. destruct v as [s|f|a0].
    - eexists _, _. split; [reflexivity|]. rewrite length_app. simpl.
      split; [lia|]. split; [intros; now apply lookup_app_l_Some|].
      split; intros a [= <-]; [right|]; lia.
    - exists (VFun f), h. split; [reflexivity|]. split; [lia|]. split; auto.
      split; discriminate.
    - exists (VObj a0), h. split; [reflexivity|]. split; [lia|]. split; auto.
      split; [auto|]. intros a [= <-]. eapply Hb. exact Hk. }
  destruct Hwrap as (v' & hm & -> & Hlen & Hkeep & Hv' & Hin').
  unfold bind at 1.
  destruct (g v' k routes b hm) as [e|[a h2]] eqn:Hrun; [discriminate|].
  destruct (Hg _ _ _ _ _ _ _ Hin' Hrun) as (Hlen2 & Ha & Hwhich & Htypes).
  unfold ret at 1, bind, assignType, ret. intros [= <- <-].
  destruct (lookup_lt_is_Some_2 h2 a Ha) as (r2 & Hr2).
  assert (Hnew : forall k' a', k' <> k -> Obj.get k' routes = Some (VObj a') -> a' <> a).
  { intros k' a' Hne Hk' ->. pose proof (Hb _ _ Hk') as Hlt.
    destruct Hwhich as [->|Hge]; [|lia].
    destruct (Hv' a eq_refl) as [->|Hge]; [|lia].
    apply Hne. eapply Hinj; eassumption. }
  exists a, (withType k r2). split; [reflexivity|].
  split; [now rewrite list_lookup_alter_eq, Hr2|]. split; [reflexivity|].
  split; [split|split].
  - intros k' a'. rewrite get_set, length_alter.
    destruct (String.eqb_spec k k') as [<-|Hne].
    + now intros [= <-].
    + intros H. apply Hb in H. lia.
  - intros k1 k2 a'. rewrite !get_set.
    destruct (String.eqb_spec k k1) as [<-|H1];
      destruct (String.eqb_spec k k2) as [<-|H2]; auto.
    + intros [= <-] H. exfalso. eapply Hnew; [|exact H|reflexivity]. congruence.
    + intros H [= <-]. exfalso. eapply Hnew; [|exact H|reflexivity]. congruence.
    + apply Hinj.
  - intros a' r Hne Ha'. rewrite list_lookup_alter_ne by congruence.
    apply (Htypes a' r Hne). now apply Hkeep.
  - exact Hnew.
Qed.

(** The loop on a well-formed map, over distinct keys: every visited entry
    ends as a record whose type is its key. *)
Lemma forEach_types formatter b ks routes h routes' h' :
  (forall g, formatter = Some g -> wellBehaved g) ->
  wellFormed routes h ->
  List.NoDup ks ->
  (forall k, In k ks -> In k (Obj.names routes)) ->
  forEach ks (formatEntry formatter b) routes h = inr (routes', h') ->
  (forall k, In k ks ->
     exists a r, Obj.get k routes' = Some (VObj a)
                 /\ h' !! a = Some r /\ type r = Some k)
  /\ (forall k, ~ In k ks ->
       Obj.get k routes' = Obj.get k routes
       /\ forall a r, Obj.get k routes = Some (VObj a) -> h !! a = Some r ->
            exists r', h' !! a = Some r' /\ type r' = type r).
Proof.
  intros Hg. revert routes h.
  induction ks as [|k0 ks IH]; intros routes h Hwf Hnd Hin; simpl.
  - unfold ret. intros [= <- <-]. split; [intros ? []|eauto].
  - apply List.NoDup_cons_iff in Hnd. destruct Hnd as [Hk0 Hnd].
    unfold bind.
    destruct (formatEntry formatter b routes k0 h) as [e|[routes1 h1]] eqn:Hrun;
      [discriminate|].
    assert (Hg0 : exists v0, Obj.get k0 routes = Some v0).
    { specialize (Hin k0 (or_introl eq_refl)). apply get_in_names in Hin.
      destruct (Obj.get k0 routes); [eauto|congruence]. }
    destruct Hg0 as (v0 & Hg0).
    destruct (formatEntry_step_types _ _ _ _ _ _ _ _ Hg Hwf Hg0 Hrun)
      as (a1 & r1 & -> & Hr1 & Ht1 & Hwf1 & Hframe & Hdiff).
    intros H.
    destruct (IH _ _ Hwf1 Hnd) with (2 := H) as [IH1 IH2].
    { intros k Hk. apply in_names_set. right. apply Hin. now right. }
    destruct (IH2 k0 Hk0) as [Hk0' Hh0'].
    rewrite get_set_eq in Hk0'.
    destruct (Hh0' a1 r1 (get_set_eq _ _ _) Hr1) as (r1' & Hr1' & Ht1').
    split.
    + intros k [<-|Hk].
      * exists a1, r1'. repeat split; auto. congruence.
      * apply IH1. exact Hk.
    + intros k Hk.
      assert (Hne : k <> k0) by (intros ->; apply Hk; now left).
      assert (Hks : ~ In k ks) by (intros Hi; apply Hk; now right).
      destruct (IH2 k Hks) as [Hget Hh]. rewrite get_set_ne in Hget by congruence.
      split; [exact Hget|]. intros a r Ha Hr.
      destruct (Hframe a r) as (r' & Hr' & Ht'); [eapply Hdiff; eassumption|exact Hr|].
      destruct (Hh a r') as (r'' & Hr'' & Ht''); [|exact Hr'|].
      { rewrite get_set_ne by congruence. exact Ha. }
      exists r''. split; [exact Hr''|congruence].
Qed.

(** ** The registry after default formatting *)

Lemma formatRoutes_default_spec T input (isAddRoutes : bool) h routes h' :
  wellFormed input h ->
  List.NoDup (Obj.names input) ->
  formatRoutes T input None isAddRoutes h = inr (routes, h') ->
  exists routes0 h0 ext,
    (if isAddRoutes then ret input else seedRoutes T input) h = inr (routes0, h0)
    /\ h0 = h ++ ext
    /\ Obj.names routes = Obj.names routes0
    /\ forall k v, Obj.get k routes0 = Some v ->
         exists a r, Obj.get k routes = Some (VObj a)
                     /\ h' !! a = Some r
                     /\ formattedRecord h0 k v = Some r.
Proof.
  intros Hwf Hnd H.
  destruct (formatRoutes_stages _ _ _ _ _ _ _ H) as (r0 & h0 & Hs & Hloop & Hn).
  assert (Hpre : wellFormed r0 h0 /\ List.NoDup (Obj.names r0)
                 /\ exists ext, h0 = h ++ ext).
  { destruct isAddRoutes.
    - injection Hs as <- <-. repeat split; try apply Hwf; auto.
      exists []. now rewrite app_nil_r.
    - split; [eapply seedRoutes_wellFormed; eassumption|].
      split; [eapply seedRoutes_NoDup; eassumption|].
      eapply seedRoutes_heap; eassumption. }
  destruct Hpre as (Hwf0 & Hnd0 & ext & Hext).
  exists r0, h0, ext. repeat split; auto.
  intros k v Hk.
  destruct (forEach_default_spec _ _ _ _ _ _ Hwf0 (NoDup_keys _ Hnd0) Hloop)
    as [Hspec _].
  destruct (Hspec k v) as (a & r & Ha & Hr & Hf & _); [|exact Hk|eauto].
  apply in_keys. eapply get_Some_in_names. exact Hk.
Qed.

(** A record of the start store is still what it was after seeding. *)
Lemma formattedRecord_app h ext k v :
  (forall a, v = VObj a -> a < length h) ->
  formattedRecord (h ++ ext) k v = formattedRecord h k v.
Proof.
  destruct v as [s|f|a]; simpl; try reflexivity.
  intros Hb. rewrite lookup_app_l; [reflexivity|]. now apply Hb.
Qed.

Lemma sample_routes_wellFormed : wellFormed Samples.routes Samples.store.
Proof.
  split.
  - intros k a. unfold Samples.routes. cbn [Obj.get].
    destruct (String.eqb "HOME" k); [discriminate|].
    destruct (String.eqb "POST" k); [discriminate|].
    destruct (String.eqb "ABOUT" k); [|discriminate].
    intros [= <-]. simpl. lia.
  - intros k1 k2 a. unfold Samples.routes. cbn [Obj.get].
    destruct (String.eqb_spec "HOME" k1); [discriminate|].
    destruct (String.eqb_spec "POST" k1); [discriminate|].
    destruct (String.eqb_spec "ABOUT" k1) as [<-|]; [|discriminate].
    destruct (String.eqb_spec "HOME" k2); [discriminate|].
    destruct (String.eqb_spec "POST" k2); [discriminate|].
    destruct (String.eqb_spec "ABOUT" k2) as [<-|]; [|discriminate].
    reflexivity.
Qed.

Lemma sample_routes_NoDup : List.NoDup (Obj.names Samples.routes).
Proof. repeat constructor; simpl; intuition discriminate. Qed.

Lemma asBeforeEnter_wellBehaved : wellBehaved Samples.asBeforeEnter.
Proof.
  intros v k routes b h a h' Hv. unfold Samples.asBeforeEnter.
  destruct v as [s|f|a0]; [discriminate| |]; intros [= <- <-].
  - rewrite length_app. simpl. repeat split; [lia..|right; lia|].
    intros a' r _ Hr. exists r. split; [now apply lookup_app_l_Some|reflexivity].
  - repeat split; [lia|now apply Hv|now left|]. eauto.
Qed.

(** C8 (as amended).  Take a build of an input in which no record object
    stands under two keys, with default formatting or with a well-behaved
    custom formatter.  Then every entry of the resulting map is a record
    whose [type] is its key.  In initial mode a truthy user-supplied
    definition for [NOT_FOUND] or a maintenance type is the one that gets
    formatted, in place of the built-in record; with default formatting the
    shorthand is expanded, a record keeps its own properties, and it
    receives the built-in type. *)
Theorem formatRoutes_type_is_key
    T input formatter (isAddRoutes : bool) h routes h' :
  wellFormed input h ->
  List.NoDup (Obj.names input) ->
  (forall g, formatter = Some g -> wellBehaved g) ->
  formatRoutes T input formatter isAddRoutes h = inr (routes, h') ->
  (forall k v, Obj.get k routes = Some v ->
     exists a r, v = VObj a /\ h' !! a = Some r /\ type r = Some k)
  /\ (isAddRoutes = false ->
      forall k v, In k (NOT_FOUND :: maintenance T) ->
        Obj.get k input = Some v -> truthy v = true ->
        (exists routes0 h0,
            seedRoutes T input h = inr (routes0, h0)
            /\ Obj.get k routes0 = Some v)
        /\ (formatter = None ->
            exists a r, Obj.get k routes = Some (VObj a)
                        /\ h' !! a = Some r
                        /\ formattedRecord h k v = Some r
                        /\ type r = Some k)).
Proof.
  intros Hwf Hnd Hg H.
  destruct (formatRoutes_stages _ _ _ _ _ _ _ H) as (r0 & h0 & Hs & Hloop & Hn).
  split.
  - assert (Hpre : wellFormed r0 h0 /\ List.NoDup (Obj.names r0)).
    { destruct isAddRoutes.
      - injection Hs as <- <-. auto.
      - split; [eapply seedRoutes_wellFormed; eassumption|].
        eapply seedRoutes_NoDup; eassumption. }
    destruct Hpre as [Hwf0 Hnd0].
    destruct (forEach_types formatter isAddRoutes (Obj.keys r0) r0 h0 routes h'
                Hg Hwf0 (NoDup_keys _ Hnd0)) as [Htypes _];
      [intros k; apply in_keys|exact Hloop|].
    intros k v Hk.
    destruct (Htypes k) as (a & r & Ha & Hr & Ht).
    { apply in_keys. rewrite <- Hn. eapply get_Some_in_names. exact Hk. }
    exists a, r. repeat split; [congruence|exact Hr|exact Ht].
  - intros -> k v _ Hk Hv.
    assert (Hk0 : Obj.get k r0 = Some v).
    { eapply seedRoutes_get_input; [exact Hs|exact Hk|now left]. }
    split; [eauto|]. intros ->.
    destruct (formatRoutes_default_spec _ _ _ _ _ _ Hwf Hnd H)
      as (r0' & h0' & ext & Hs' & Hext & _ & Hspec).
    rewrite Hs in Hs'. injection Hs' as <- <-.
    destruct (Hspec k v Hk0) as (a & r & Ha & Hr & Hf).
    exists a, r. repeat split; auto.
    + rewrite Hext, formattedRecord_app in Hf; [exact Hf|].
      intros a0 ->. eapply Hwf. exact Hk.
    + eapply formattedRecord_type. exact Hf.
Qed.

(** The sample routes, built in initial mode with default formatting and
    built with the formatter [asBeforeEnter]: every record has its key as
    its type. *)
Lemma formatRoutes_type_is_key_witness :
  wellFormed Samples.routes Samples.store
  /\ (exists routes h',
        formatRoutes Samples.types Samples.routes None false Samples.store
        = inr (routes, h')
        /\ forall k v, Obj.get k routes = Some v ->
             exists a r, v = VObj a /\ h' !! a = Some r /\ type r = Some k)
  /\ (exists routes h',
        formatRoutes Samples.types Samples.routes (Some Samples.asBeforeEnter)
          true Samples.store
        = inr (routes, h')
        /\ forall k v, Obj.get k routes = Some v ->
             exists a r, v = VObj a /\ h' !! a = Some r /\ type r = Some k).
Proof.
  pose proof sample_routes_wellFormed as Hwf.
  split; [exact Hwf|]. split.
  - eexists _, _. split; [vm_compute; reflexivity|].
    apply (formatRoutes_type_is_key Samples.types Samples.routes None false
             Samples.store _ _ Hwf).
    + exact sample_routes_NoDup.
    + discriminate.
    + reflexivity.
  - eexists _, _. split; [vm_compute; reflexivity|].
    apply (formatRoutes_type_is_key Samples.types Samples.routes
             (Some Samples.asBeforeEnter) true Samples.store _ _ Hwf).
    + exact sample_routes_NoDup.
    + intros g [= <-]. exact asBeforeEnter_wellBehaved.
    + reflexivity.
Defined.

(** C8 as stated fails: when one record object is stored under two types,
    the build assigns its [type] twice and the last assignment stays, so the
    record found under 'A' has type 'B'.  A custom formatter that hands out
    one record for every entry ([() => about]) has the same effect on maps
    that share nothing. *)
Lemma formatRoutes_shared_record_keeps_last_type :
  (exists routes h',
      formatRoutes Samples.types Samples.shared None false Samples.store
      = inr (routes, h')
      /\ Obj.get "A" routes = Some (VObj 0)
      /\ Obj.get "B" routes = Some (VObj 0)
      /\ h' !! 0 = Some (mkRoute (Some "/about") None None None None (Some "B")))
  /\ (exists routes h',
        formatRoutes Samples.types Samples.routes (Some Samples.alwaysAbout)
          true Samples.store
        = inr (routes, h')
        /\ Obj.get "HOME" routes = Some (VObj 0)
        /\ h' !! 0
           = Some (mkRoute (Some "/about") None None None None (Some "ABOUT"))).
Proof.
  split; eexists _, _; (split; [vm_compute; reflexivity|]); repeat split.
Qed.

(** C7 (as amended).  With default formatting, [formatRoute] makes the new
    record [{ path: s }] of a bare string [s] and the new record
    [{ thunk: f }] of a bare function [f]; in the registry built from a
    well-formed input these records stand, with their type, under the key
    the shorthand was given for (in initial mode, an empty string under a
    maintenance type gives way to the built-in record).  With a custom
    formatter a bare string is still wrapped as [{ path: s }] before the
    formatter receives it, a bare function is handed to the formatter as it
    is, and the entry is whatever record the formatter returns. *)
Theorem formatRoute_normalizes_shorthand
    k routes (b : bool) h :
  (forall s,
      formatRoute (VStr s) k routes None b h
      = inr (VObj (length h), h ++ [mkRoute (Some s) None None None None None]))
  /\ (forall f,
        formatRoute (VFun f) k routes None b h
        = inr (VObj (length h), h ++ [mkRoute None (Some f) None None None None]))
  /\ (forall (g : Formatter) s,
        formatRoute (VStr s) k routes (Some g) b h
        = (let* a := g (VObj (length h)) k routes b in ret (VObj a))
            (h ++ [mkRoute (Some s) None None None None None]))
  /\ (forall (g : Formatter) f,
        formatRoute (VFun f) k routes (Some g) b h
        = (let* a := g (VFun f) k routes b in ret (VObj a)) h)
  /\ (forall T input result h',
        wellFormed input h ->
        List.NoDup (Obj.names input) ->
        formatRoutes T input None b h = inr (result, h') ->
        forall k0 v,
          Obj.get k0 input = Some v ->
          (b = false -> In k0 (maintenance T) -> truthy v = true) ->
          exists a,
            Obj.get k0 result = Some (VObj a)
            /\ match v with
               | VStr s =>
                   h' !! a = Some (mkRoute (Some s) None None None None (Some k0))
               | VFun f =>
                   h' !! a = Some (mkRoute None (Some f) None None None (Some k0))
               | VObj a0 => a = a0
               end).
Proof.
  split; [reflexivity|]. split; [reflexivity|].
  split; [reflexivity|]. split; [reflexivity|].
  intros T input result h' Hwf Hnd H k0 v Hk Hv.
  destruct (formatRoutes_stages _ _ _ _ _ _ _ H) as (r0 & h0 & Hs & Hloop & Hn).
  assert (Hpre : wellFormed r0 h0 /\ List.NoDup (Obj.names r0)
                 /\ Obj.get k0 r0 = Some v).
  { destruct b.
    - injection Hs as <- <-. auto.
    - split; [eapply seedRoutes_wellFormed; eassumption|].
      split; [eapply seedRoutes_NoDup; eassumption|].
      eapply seedRoutes_get_input; [exact Hs|exact Hk|].
      destruct (in_dec string_dec k0 (maintenance T)); auto. }
  destruct Hpre as (Hwf0 & Hnd0 & Hk0).
  destruct (forEach_default_spec _ _ _ _ _ _ Hwf0 (NoDup_keys _ Hnd0) Hloop)
    as [Hspec _].
  destruct (Hspec k0 v) as (a & r & Ha & Hr & Hf & Hsame); [|exact Hk0|].
  { apply in_keys. eapply get_Some_in_names. exact Hk0. }
  exists a. split; [exact Ha|].
  destruct v as [s|f|a0]; simpl in Hf.
  - now injection Hf as <-.
  - now injection Hf as <-.
  - now apply Hsame.
Qed.

(** The sample routes: '/' under HOME becomes the record
    [{ path: '/', type: 'HOME' }]. *)
Lemma formatRoute_normalizes_shorthand_witness :
  wellFormed Samples.routes Samples.store
  /\ exists result h',
      formatRoutes Samples.types Samples.routes None true Samples.store
      = inr (result, h')
      /\ exists a,
          Obj.get "HOME" result = Some (VObj a)
          /\ h' !! a = Some (mkRoute (Some "/") None None None None (Some "HOME")).
Proof.
  pose proof sample_routes_wellFormed as Hwf.
  split; [exact Hwf|].
  eexists _, _. split; [vm_compute; reflexivity|].
  destruct (formatRoute_normalizes_shorthand "HOME" Samples.routes true
              Samples.store) as (_ & _ & _ & _ & Hreg).
  apply (Hreg Samples.types Samples.routes _ _ Hwf) with (v := VStr "/").
  - exact sample_routes_NoDup.
  - reflexivity.
  - reflexivity.
  - discriminate.
Defined.

(** C7 as stated fails: under the custom formatter [asBeforeEnter] the bare
    function stored under 'POST' does not become [{ thunk: f }]; the
    formatter receives the function itself and the entry becomes the record
    [{ beforeEnter: f }], with no thunk. *)
Lemma formatRoute_function_reaches_formatter :
  formatRoute (VFun (userFn 7)) "POST" Samples.routes
    (Some Samples.asBeforeEnter) true Samples.store
  = inr (VObj 1,
         Samples.store ++ [mkRoute None None (Some (userFn 7)) None None None])
  /\ exists result h',
      formatRoutes Samples.types Samples.routes (Some Samples.asBeforeEnter)
        true Samples.store
      = inr (result, h')
      /\ Obj.get "POST" result = Some (VObj 2)
      /\ h' !! 2
         = Some (mkRoute None None (Some (userFn 7)) None None (Some "POST")).
Proof.
  split; [reflexivity|].
  eexists _, _. split; [vm_compute; reflexivity|]. split; reflexivity.
Qed.

(** ** Formatting what is already formatted *)

Lemma set_same_id k (v : value) routes :
  Obj.get k routes = Some v -> Obj.set k v routes = routes.
Proof.
  induction routes as [|[k' v'] o IH]; simpl; [discriminate|].
  destruct (String.eqb k' k).
  - now intros [= ->].
  - intros H. now rewrite IH.
Qed.

Lemma alter_same_id (f : route -> route) a h r :
  h !! a = Some r -> f r = r -> alter f a h = h.
Proof.
  intros Ha Hf. apply list_eq. intros i.
  destruct (decide (i = a)) as [->|Hne].
  - rewrite list_lookup_alter_eq, Ha. simpl. now rewrite Hf.
  - now rewrite list_lookup_alter_ne.
Qed.

Lemma withType_same k (r : route) : type r = Some k -> withType k r = r.
Proof. destruct r. simpl. now intros ->. Qed.

(** A map whose entries are records that carry their key as type, and the
    store, are left as they are by the loop. *)
Lemma forEach_formatted_fixed b ks routes h :
  (forall k, In k ks ->
     exists a r, Obj.get k routes = Some (VObj a)
                 /\ h !! a = Some r /\ type r = Some k) ->
  forEach ks (formatEntry None b) routes h = inr (routes, h).
Proof.
  induction ks as [|k ks IH]; intros Hks; simpl; [reflexivity|].
  unfold bind. rewrite formatEntry_default.
  destruct (Hks k (or_introl eq_refl)) as (a & r & Hk & Ha & Ht).
  rewrite Hk, (set_same_id _ _ _ Hk),
    (alter_same_id _ _ _ _ Ha (withType_same _ _ Ht)).
  apply IH. intros k' Hk'. apply Hks. now right.
Qed.

(** X1.  Formatting is idempotent.  Take the registry that a build with
    default formatting makes of an input in which no record stands under two
    keys.  Building it again in add-routes mode changes nothing: the same
    map and the same store come back. *)
Theorem formatRoutes_idempotent T input (isAddRoutes : bool) h routes h' :
  wellFormed input h ->
  List.NoDup (Obj.names input) ->
  formatRoutes T input None isAddRoutes h = inr (routes, h') ->
  formatRoutes T routes None true h' = inr (routes, h').
Proof.
  intros Hwf Hnd H.
  destruct (formatRoutes_default_spec _ _ _ _ _ _ Hwf Hnd H)
    as (routes0 & h0 & ext & _ & _ & Hn & Hspec).
  unfold formatRoutes, bind, ret.
  apply forEach_formatted_fixed. intros k Hk.
  apply in_keys in Hk. rewrite Hn in Hk. apply get_in_names in Hk.
  destruct (Obj.get k routes0) as [v|] eqn:Hv; [|congruence].
  destruct (Hspec k v Hv) as (a & r & Ha & Hr & Hf).
  exists a, r. repeat split; auto. eapply formattedRecord_type. exact Hf.
Qed.

(** The sample routes, built and then built again in add-routes mode. *)
Lemma formatRoutes_idempotent_witness :
  wellFormed Samples.routes Samples.store
  /\ exists routes h',
      formatRoutes Samples.types Samples.routes None false Samples.store
      = inr (routes, h')
      /\ formatRoutes Samples.types routes None true h' = inr (routes, h').
Proof.
  split; [exact sample_routes_wellFormed|].
  eexists _, _. split; [vm_compute; reflexivity|].
  exact (formatRoutes_idempotent Samples.types Samples.routes false
           Samples.store _ _ sample_routes_wellFormed sample_routes_NoDup
           eq_refl).
Defined.

(** ** What default formatting leaves of a record *)

Lemma forEach_default_fields b ks routes h routes' h' :
  forEach ks (formatEntry None b) routes h = inr (routes', h') ->
  length h <= length h'
  /\ forall a r, h !! a = Some r ->
       exists r', h' !! a = Some r'
                  /\ (r' = r \/ exists k, r' = withType k r).
Proof.
  revert routes h. induction ks as [|k0 ks IH]; intros routes h; simpl.
  - unfold ret. intros [= <- <-]. split; eauto.
  - unfold bind. rewrite formatEntry_default.
    destruct (Obj.get k0 routes) as [[s|f|a0]|] eqn:Hk0; [| | |discriminate];
      intros H; destruct (IH _ _ H) as [IHl IHh]; split.
    + rewrite length_app in IHl. lia.
    + intros a r Ha. apply IHh. now apply lookup_app_l_Some.
    + rewrite length_app in IHl. lia.
    + intros a r Ha. apply IHh. now apply lookup_app_l_Some.
    + rewrite length_alter in IHl. exact IHl.
    + intros a r Ha. destruct (decide (a0 = a)) as [->|Hne].
      * destruct (IHh a (withType k0 r)) as (r' & Hr' & Hp).
        { rewrite list_lookup_alter_eq, Ha. reflexivity. }
        exists r'. split; [exact Hr'|]. right.
        destruct Hp as [->|(k & ->)]; [eauto|]. exists k. reflexivity.
      * apply IHh. now rewrite list_lookup_alter_ne.
Qed.

(** X2.  A build with default formatting never removes a record from the
    store and never changes anything of a record but its [type]: path,
    callbacks and [dispatch] flag are what they were.  An entry that was
    supplied as a record still refers to that same record afterwards. *)
Theorem formatRoutes_default_keeps_records
    T input (isAddRoutes : bool) h routes h' :
  formatRoutes T input None isAddRoutes h = inr (routes, h') ->
  length h <= length h'
  /\ (forall a r, h !! a = Some r ->
        exists r', h' !! a = Some r'
                   /\ (r' = r \/ exists k, r' = withType k r))
  /\ (forall k a, Obj.get k input = Some (VObj a) ->
                  Obj.get k routes = Some (VObj a)).
Proof.
  intros H.
  destruct (formatRoutes_stages _ _ _ _ _ _ _ H) as (r0 & h0 & Hs & Hloop & Hn).
  destruct (forEach_default_fields _ _ _ _ _ _ Hloop) as [Hlen Hrec].
  destruct (forEach_default_preserves _ _ _ _ _ _ Hloop) as [Hkeep _].
  destruct isAddRoutes.
  - injection Hs as <- <-. auto.
  - destruct (seedRoutes_heap _ _ _ _ _ Hs) as (ext & ->).
    split; [|split].
    + rewrite length_app in Hlen. lia.
    + intros a r Ha. apply Hrec. now apply lookup_app_l_Some.
    + intros k a Hk. apply Hkeep.
      eapply seedRoutes_get_input; [exact Hs|exact Hk|now left].
Qed.

(** The record of the sample store is still at its address after the build,
    and is what it was but for its type. *)
Lemma formatRoutes_default_keeps_records_witness :
  exists routes h',
    formatRoutes Samples.types Samples.routes None false Samples.store
    = inr (routes, h')
    /\ Obj.get "ABOUT" routes = Some (VObj 0)
    /\ exists r', h' !! 0 = Some r'
                  /\ (r' = mkRoute (Some "/about") None None None None None
                      \/ exists k, r' = withType k
                           (mkRoute (Some "/about") None None None None None)).
Proof.
  eexists _, _. split; [vm_compute; reflexivity|].
  destruct (formatRoutes_default_keeps_records Samples.types Samples.routes
              false Samples.store _ _ eq_refl) as (_ & Hrec & Hkeep).
  split; [exact (Hkeep "ABOUT" 0 eq_refl)|].
  exact (Hrec 0 _ eq_refl).
Defined.

(** ** The types of an initial build *)

Lemma in_names_assign (t src : routesMap) k :
  In k (Obj.names (Obj.assign t src))
  <-> In k (Obj.names t) \/ In k (Obj.names src).
Proof.
  rewrite !get_in_names, get_assign.
  destruct (Obj.get k src), (Obj.get k t); intuition congruence.
Qed.





(** ** The order of the types of an initial build *)

Lemma names_set_cases k (v : value) routes :
  exists added,
    Obj.names (Obj.set k v routes) = Obj.names routes ++ added
    /\ forall k', In k' added -> k' = k /\ ~ In k (Obj.names routes).
Proof.
  destruct (in_dec string_dec k (Obj.names routes)) as [Hin|Hout].
  - exists []. rewrite app_nil_r. split; [now apply names_set_in|intros ? []].
  - exists [k]. split; [now apply names_set_notin|].
    intros k' [<-|[]]. auto.
Qed.

(** [Object.assign] keeps the properties of the target in place and creates
    the others in the order [Object.keys] lists them. *)
Lemma names_fold_set (src : routesMap) (ks : list string) (t : routesMap) :
  List.NoDup ks ->
  (forall k, In k ks -> In k (Obj.names src)) ->
  Obj.names
    (fold_left (fun acc k0 => match Obj.get k0 src with
                              | Some v => Obj.set k0 v acc
                              | None => acc
                              end) ks t)
  = Obj.names t
      ++ List.filter (fun k => if in_dec string_dec k (Obj.names t)
                               then false else true) ks.
Proof.
  revert t. induction ks as [|k ks IH]; intros t Hnd Hin; simpl.
  - now rewrite app_nil_r.
  - apply List.NoDup_cons_iff in Hnd as [Hk Hnd].
    assert (Hsrc : Obj.get k src <> None)
      by (apply get_in_names, Hin; now left).
    destruct (Obj.get k src) as [v|]; [|congruence].
    rewrite IH; [|exact Hnd|intros; apply Hin; now right].
    destruct (in_dec string_dec k (Obj.names t)) as [Ht|Ht].
    + rewrite names_set_in by exact Ht. reflexivity.
    + rewrite names_set_notin by exact Ht. rewrite <- app_assoc. simpl.
      f_equal. f_equal. apply List.filter_ext_in. intros k' Hk'.
      destruct (in_dec string_dec k' (Obj.names t ++ [k])) as [H1|H1];
        destruct (in_dec string_dec k' (Obj.names t)) as [H2|H2];
        try reflexivity.
      * apply in_app_or in H1. destruct H1 as [H1|[<-|[]]]; contradiction.
      * exfalso. apply H1. apply in_or_app. now left.
Qed.

Lemma filter_false_nil {A} (p : A -> bool) (l : list A) :
  Forall (fun x => p x = false) l -> List.filter p l = [].
Proof.
  induction 1 as [|x l Hx _ IH]; simpl; [reflexivity|]. now rewrite Hx.
Qed.

Lemma filter_twice {A} (p q : A -> bool) (l : list A) :
  List.filter p (List.filter q l) = List.filter (fun x => q x && p x) l.
Proof.
  induction l as [|x l IH]; simpl; [reflexivity|].
  destruct (q x); simpl; [destruct (p x)|]; now rewrite IH.
Qed.

(** The string keys of [Object.keys] are those of the creation order. *)
Lemma keys_string_part (routes : routesMap) (p : string -> bool) :
  List.filter (fun k => negb (Obj.is_index k) && p k) (Obj.keys routes)
  = List.filter (fun k => negb (Obj.is_index k) && p k) (Obj.names routes).
Proof.
  unfold Obj.keys. rewrite List.filter_app, filter_false_nil, filter_twice.
  - simpl. apply List.filter_ext. intros k. destruct (Obj.is_index k); reflexivity.
  - assert (Hidx : Forall (fun k => Obj.is_index k = true)
                     (Obj.sort_index
                        (List.filter Obj.is_index (Obj.names routes)))).
    { apply sort_index_all. apply List.Forall_forall. intros k Hk.
      apply List.filter_In in Hk. apply Hk. }
    revert Hidx. apply List.Forall_impl. intros k Hk. now rewrite Hk.
Qed.

Lemma seedRoutes_order T input h routes h' :
  List.NoDup (Obj.names input) ->
  seedRoutes T input h = inr (routes, h') ->
  exists added,
    Obj.names routes
    = NOT_FOUND
        :: List.filter (fun k => negb (String.eqb k NOT_FOUND)) (Obj.keys input)
        ++ added
    /\ Forall (fun k => In k (maintenance T) /\ ~ In k (Obj.names input)) added.
Proof.
  intros Hnd H. seed_steps H. injection H as <- _.
  assert (Hbase :
    Obj.names (Obj.assign (Obj.set NOT_FOUND v []) input)
    = NOT_FOUND
        :: List.filter (fun k => negb (String.eqb k NOT_FOUND)) (Obj.keys input)
        ++ []).
  { unfold Obj.assign. rewrite names_fold_set.
    - rewrite app_nil_r.
      change (Obj.names (Obj.set NOT_FOUND v [])) with [NOT_FOUND].
      cbn [app]. f_equal. apply List.filter_ext. intros k.
      destruct (in_dec string_dec k [NOT_FOUND]) as [[<-|[]]|Hn].
      + now rewrite String.eqb_refl.
      + destruct (String.eqb_spec k NOT_FOUND) as [->|]; [|reflexivity].
        exfalso. apply Hn. now left.
    - now apply NoDup_keys.
    - intros k. apply in_keys. }
  assert (Hin : forall k, In k (Obj.names input) ->
                  In k (Obj.names (Obj.assign (Obj.set NOT_FOUND v []) input))).
  { intros k Hk. apply in_names_assign. now right. }
  assert (Hstep : forall K w (o : routesMap) added,
    In K (maintenance T) ->
    (forall k, In k (Obj.names input) -> In k (Obj.names o)) ->
    Obj.names o
    = NOT_FOUND
        :: List.filter (fun k => negb (String.eqb k NOT_FOUND)) (Obj.keys input)
        ++ added ->
    Forall (fun k => In k (maintenance T) /\ ~ In k (Obj.names input)) added ->
    (forall k, In k (Obj.names input) -> In k (Obj.names (Obj.set K w o)))
    /\ exists added',
        Obj.names (Obj.set K w o)
        = NOT_FOUND
            :: List.filter (fun k => negb (String.eqb k NOT_FOUND))
                 (Obj.keys input)
            ++ added'
        /\ Forall (fun k => In k (maintenance T) /\ ~ In k (Obj.names input))
             added').
  { intros K w o added HK Hino Ho Hadd. split.
    - intros k Hk. apply in_names_set. right. now apply Hino.
    - destruct (names_set_cases K w o) as (ex & Hex & Hnew).
      exists (added ++ ex). split.
      + rewrite Hex, Ho. simpl. now rewrite <- app_assoc.
      + apply Forall_app. split; [exact Hadd|].
        apply List.Forall_forall. intros k Hk.
        destruct (Hnew k Hk) as [-> Hout]. split; [exact HK|].
        intros Hk'. apply Hout. now apply Hino. }
  unfold maintenance in Hstep.
  destruct (Hstep (ADD_ROUTES T) v0 _ [] ltac:(simpl; tauto) Hin Hbase
              ltac:(constructor)) as (Hin1 & a1 & Hn1 & Ha1).
  destruct (Hstep (CHANGE_BASENAME T) v1 _ a1 ltac:(simpl; tauto) Hin1 Hn1 Ha1)
    as (Hin2 & a2 & Hn2 & Ha2).
  destruct (Hstep (CLEAR_CACHE T) v2 _ a2 ltac:(simpl; tauto) Hin2 Hn2 Ha2)
    as (Hin3 & a3 & Hn3 & Ha3).
  destruct (Hstep (CONFIRM T) v3 _ a3 ltac:(simpl; tauto) Hin3 Hn3 Ha3)
    as (Hin4 & a4 & Hn4 & Ha4).
  destruct (Hstep (CALL_HISTORY T) v4 _ a4 ltac:(simpl; tauto) Hin4 Hn4 Ha4)
    as (_ & a5 & Hn5 & Ha5).
  exists a5. split; [exact Hn5|exact Ha5].
Qed.

(** X4.  The order in which an initial build enumerates its types: the
    integer-like types first, then [NOT_FOUND], then the string types of the
    input in the order the input has them, then the maintenance types that
    the build added itself. *)
Theorem formatRoutes_initial_order T input formatter h routes h' :
  List.NoDup (Obj.names input) ->
  formatRoutes T input formatter false h = inr (routes, h') ->
  exists idx added,
    Obj.keys routes
    = idx
        ++ NOT_FOUND
        :: List.filter (fun k => negb (Obj.is_index k)
                                 && negb (String.eqb k NOT_FOUND))
             (Obj.names input)
        ++ added
    /\ Forall (fun k => Obj.is_index k = true) idx
    /\ Forall (fun k => In k (maintenance T) /\ ~ In k (Obj.names input)) added.
Proof.
  intros Hnd H.
  destruct (formatRoutes_stages _ _ _ _ _ _ _ H) as (r0 & h0 & Hs & _ & Hn).
  destruct (seedRoutes_order _ _ _ _ _ Hnd Hs) as (added & Hr0 & Hadd).
  rewrite (keys_names_eq _ _ Hn). unfold Obj.keys at 1. rewrite Hr0.
  exists (Obj.sort_index
            (List.filter Obj.is_index
               (NOT_FOUND
                  :: List.filter (fun k => negb (String.eqb k NOT_FOUND))
                       (Obj.keys input) ++ added))),
    (List.filter (fun k => negb (Obj.is_index k)) added).
  split; [|split].
  - f_equal. cbn [List.filter]. change (Obj.is_index NOT_FOUND) with false.
    cbn [negb]. f_equal. rewrite List.filter_app. f_equal.
    rewrite filter_twice.
    rewrite <- (keys_string_part input (fun k => negb (String.eqb k NOT_FOUND))).
    apply List.filter_ext. intros k. apply andb_comm.
  - apply sort_index_all, List.Forall_forall. intros k Hk.
    apply List.filter_In in Hk. apply Hk.
  - apply List.Forall_forall. intros k Hk. apply List.filter_In in Hk.
    destruct Hk as [Hk _]. revert k Hk. now apply List.Forall_forall.
Qed.

(** The sample routes come after NOT_FOUND, in the order of the input. *)
Lemma formatRoutes_initial_order_witness :
  List.NoDup (Obj.names Samples.routes)
  /\ exists routes h' idx added,
      formatRoutes Samples.types Samples.routes None false Samples.store
      = inr (routes, h')
      /\ Obj.keys routes
         = idx ++ NOT_FOUND :: ["HOME"; "POST"; "ABOUT"] ++ added.
Proof.
  split; [exact sample_routes_NoDup|].
  destruct (formatRoutes_initial_order Samples.types Samples.routes None
              Samples.store _ _ sample_routes_NoDup eq_refl)
    as (idx & added & Hk & _).
  eexists _, _, idx, added. split; [vm_compute; reflexivity|exact Hk].
Defined.

(** ** The built-in records *)

(** A maintenance type that the input leaves unset stands for a new record
    made from the built-in definition. *)
Lemma seedRoutes_builtin T input h routes h' :
  List.NoDup (maintenance T) ->
  seedRoutes T input h = inr (routes, h') ->
  forall k d,
    In (k, d)
      [(ADD_ROUTES T, mkRoute None (Some addRoutes) None None (Some false) None);
       (CHANGE_BASENAME T,
        mkRoute None (Some changeBasename) None None (Some false) None);
       (CLEAR_CACHE T, mkRoute None (Some clearCache) None None None None);
       (CONFIRM T, mkRoute None (Some confirm) None None (Some false) None);
       (CALL_HISTORY T,
        mkRoute None (Some callHistory) None None (Some false) None)] ->
    (forall v, Obj.get k input = Some v -> truthy v = false) ->
    exists a, Obj.get k routes = Some (VObj a) /\ h' !! a = Some d.
Proof.
  intros Hnd H k d Hin Hunset.
  assert (Hne : ADD_ROUTES T <> CHANGE_BASENAME T
                /\ ADD_ROUTES T <> CLEAR_CACHE T
                /\ ADD_ROUTES T <> CONFIRM T
                /\ ADD_ROUTES T <> CALL_HISTORY T
                /\ CHANGE_BASENAME T <> CLEAR_CACHE T
                /\ CHANGE_BASENAME T <> CONFIRM T
                /\ CHANGE_BASENAME T <> CALL_HISTORY T
                /\ CLEAR_CACHE T <> CONFIRM T
                /\ CLEAR_CACHE T <> CALL_HISTORY T
                /\ CONFIRM T <> CALL_HISTORY T).
  { unfold maintenance in Hnd.
    repeat match goal with
           | N : List.NoDup (_ :: _) |- _ =>
               apply List.NoDup_cons_iff in N; destruct N as [? N]
           end.
    cbn [In] in *. repeat split; intros Heq; rewrite Heq in *; tauto. }
  destruct Hne as (N12 & N13 & N14 & N15 & N23 & N24 & N25 & N34 & N35 & N45).
  seed_steps H. injection H as <- <-.
  assert (Hright : forall K (w : value) (hh hh' : heap) (dd : route),
    K = k ->
    (Obj.get K input = Some w /\ truthy w = true /\ hh' = hh)
    \/ (w = VObj (length hh) /\ hh' = hh ++ [dd]
        /\ forall v0, Obj.get K input = Some v0 -> truthy v0 = false) ->
    w = VObj (length hh) /\ hh' = hh ++ [dd]).
  { intros K w hh hh' dd -> [(Hw & Ht & _)|(-> & -> & _)]; [|auto].
    rewrite (Hunset w Hw) in Ht. discriminate. }
  cbn [In] in Hin.
  destruct Hin as [[= <- <-]|[[= <- <-]|[[= <- <-]|[[= <- <-]|[[= <- <-]|[]]]]]].
  - destruct (Hright _ _ _ _ _ eq_refl D0) as [-> ->]. exists (length h0). split.
    + rewrite !get_set_ne by congruence. apply get_set_eq.
    + clear - D1 D2 D3 D4.
      repeat match goal with
             | D : _ \/ _ |- _ => destruct D as [(_ & _ & ->)|(_ & -> & _)]
             end;
        rewrite <- ?app_assoc; apply list_lookup_middle; reflexivity.
  - destruct (Hright _ _ _ _ _ eq_refl D1) as [-> ->]. exists (length h1). split.
    + rewrite !get_set_ne by congruence. apply get_set_eq.
    + clear - D2 D3 D4.
      repeat match goal with
             | D : _ \/ _ |- _ => destruct D as [(_ & _ & ->)|(_ & -> & _)]
             end;
        rewrite <- ?app_assoc; apply list_lookup_middle; reflexivity.
  - destruct (Hright _ _ _ _ _ eq_refl D2) as [-> ->]. exists (length h2). split.
    + rewrite !get_set_ne by congruence. apply get_set_eq.
    + clear - D3 D4.
      repeat match goal with
             | D : _ \/ _ |- _ => destruct D as [(_ & _ & ->)|(_ & -> & _)]
             end;
        rewrite <- ?app_assoc; apply list_lookup_middle; reflexivity.
  - destruct (Hright _ _ _ _ _ eq_refl D3) as [-> ->]. exists (length h3). split.
    + rewrite !get_set_ne by congruence. apply get_set_eq.
    + clear - D4.
      repeat match goal with
             | D : _ \/ _ |- _ => destruct D as [(_ & _ & ->)|(_ & -> & _)]
             end;
        rewrite <- ?app_assoc; apply list_lookup_middle; reflexivity.
  - destruct (Hright _ _ _ _ _ eq_refl D4) as [-> ->]. exists (length h4). split.
    + apply get_set_eq.
    + apply list_lookup_middle. reflexivity.
Qed.

Lemma sample_types_NoDup : List.NoDup (NOT_FOUND :: maintenance Samples.types).
Proof.
  cbv [maintenance Samples.types ADD_ROUTES CHANGE_BASENAME CLEAR_CACHE CONFIRM
       CALL_HISTORY NOT_FOUND].
  repeat (apply List.NoDup_cons; [cbn [In]; intuition discriminate|]).
  apply List.NoDup_nil.
Qed.

(** X5.  The built-in records.  In an initial build with default
    formatting, a maintenance type that the input leaves unset (absent, or
    the empty string) stands for the built-in record: its thunk, with
    [dispatch: false] for all of them but the clear-cache route, which has no
    [dispatch] flag.  [NOT_FOUND] differs: an empty string supplied for it is
    not replaced by '/not-found' but becomes the record with the empty
    path. *)
Theorem formatRoutes_builtin_defaults T input h routes h' :
  wellFormed input h ->
  List.NoDup (Obj.names input) ->
  List.NoDup (NOT_FOUND :: maintenance T) ->
  formatRoutes T input None false h = inr (routes, h') ->
  let unset k := forall v, Obj.get k input = Some v -> truthy v = false in
  let builtin k f d :=
    unset k ->
    exists a, Obj.get k routes = Some (VObj a)
              /\ h' !! a = Some (mkRoute None (Some f) None None d (Some k)) in
  builtin (ADD_ROUTES T) addRoutes (Some false)
  /\ builtin (CHANGE_BASENAME T) changeBasename (Some false)
  /\ builtin (CLEAR_CACHE T) clearCache None
  /\ builtin (CONFIRM T) confirm (Some false)
  /\ builtin (CALL_HISTORY T) callHistory (Some false)
  /\ (Obj.get NOT_FOUND input = Some (VStr "") ->
      exists a, Obj.get NOT_FOUND routes = Some (VObj a)
                /\ h' !! a
                   = Some (mkRoute (Some "") None None None None
                             (Some NOT_FOUND))).
Proof.
  intros Hwf Hnd HT H. cbv zeta.
  apply List.NoDup_cons_iff in HT. destruct HT as [Hnf HT].
  destruct (formatRoutes_default_spec _ _ _ _ _ _ Hwf Hnd H)
    as (routes0 & h0 & ext & Hs & _ & _ & Hspec).
  assert (Hb : forall k d,
    In (k, d)
      [(ADD_ROUTES T, mkRoute None (Some addRoutes) None None (Some false) None);
       (CHANGE_BASENAME T,
        mkRoute None (Some changeBasename) None None (Some false) None);
       (CLEAR_CACHE T, mkRoute None (Some clearCache) None None None None);
       (CONFIRM T, mkRoute None (Some confirm) None None (Some false) None);
       (CALL_HISTORY T,
        mkRoute None (Some callHistory) None None (Some false) None)] ->
    (forall v, Obj.get k input = Some v -> truthy v = false) ->
    exists a, Obj.get k routes = Some (VObj a)
              /\ h' !! a = Some (withType k d)).
  { intros k d Hin Hunset.
    destruct (seedRoutes_builtin _ _ _ _ _ HT Hs k d Hin Hunset)
      as (a0 & Hk & Hd).
    destruct (Hspec k _ Hk) as (a & r & Ha & Hr & Hf).
    exists a. split; [exact Ha|]. rewrite Hr. simpl in Hf. rewrite Hd in Hf.
    simpl in Hf. now injection Hf as <-. }
  repeat split.
  - intros Hu. exact (Hb _ _ (or_introl eq_refl) Hu).
  - intros Hu. exact (Hb _ _ (or_intror (or_introl eq_refl)) Hu).
  - intros Hu. exact (Hb _ _ (or_intror (or_intror (or_introl eq_refl))) Hu).
  - intros Hu.
    exact (Hb _ _ (or_intror (or_intror (or_intror (or_introl eq_refl)))) Hu).
  - intros Hu.
    exact (Hb _ _ (or_intror (or_intror (or_intror (or_intror
                     (or_introl eq_refl))))) Hu).
  - intros Hempty.
    assert (Hk : Obj.get NOT_FOUND routes0 = Some (VStr "")).
    { eapply seedRoutes_get_input; [exact Hs|exact Hempty|now right]. }
    destruct (Hspec _ _ Hk) as (a & r & Ha & Hr & Hf).
    exists a. split; [exact Ha|]. rewrite Hr. simpl in Hf.
    now injection Hf as <-.
Qed.

(** The sample routes leave the add-routes type unset. *)
Lemma formatRoutes_builtin_defaults_witness :
  wellFormed Samples.routes Samples.store
  /\ List.NoDup (NOT_FOUND :: maintenance Samples.types)
  /\ exists routes h',
      formatRoutes Samples.types Samples.routes None false Samples.store
      = inr (routes, h')
      /\ exists a,
          Obj.get "@@rudy/ADD_ROUTES" routes = Some (VObj a)
          /\ h' !! a
             = Some (mkRoute None (Some addRoutes) None None (Some false)
                       (Some "@@rudy/ADD_ROUTES")).
Proof.
  split; [exact sample_routes_wellFormed|].
  split; [exact sample_types_NoDup|].
  eexists _, _. split; [vm_compute; reflexivity|].
  destruct (formatRoutes_builtin_defaults Samples.types Samples.routes
              Samples.store _ _ sample_routes_wellFormed sample_routes_NoDup
              sample_types_NoDup eq_refl) as (H & _).
  apply H. intros v Hv. discriminate Hv.
Defined.

End RegistryFacts.

(* ================================================================== *)
(** * Properties of the link helpers *)
(* ================================================================== *)

Section LinkFacts.
Import Link.

Lemma indexOf_0_prefix (s sub : string) :
  Z.eqb (indexOf s sub) 0 = String.prefix sub s.
Proof.
  unfold indexOf. destruct s as [|c s]; simpl.
  - destruct sub; reflexivity.
  - destruct sub as [|d sub]; [reflexivity|].
    simpl. destruct (ascii_dec d c) as [->|Hne].
    + destruct (String.prefix sub s); [reflexivity|].
      destruct (String.index 0 (String c sub) s); reflexivity.
    + destruct (String.index 0 (String d sub) s); reflexivity.
Qed.

Lemma append_empty_l (s : string) : "" +:+ s = s.
Proof. reflexivity. Qed.

Lemma append_String (c : ascii) (s t : string) :
  String c s +:+ t = String c (s +:+ t).
Proof. reflexivity. Qed.

Lemma substring_all (s : string) : String.substring 0 (String.length s) s = s.
Proof. induction s as [|d s IHs]; simpl; congruence. Qed.

Lemma prefix_append (p s : string) :
  String.prefix p s = true ->
  s = p +:+ substr s (String.length p).
Proof.
  revert s. induction p as [|c p IH]; intros s H.
  - unfold substr. rewrite append_empty_l. simpl. rewrite Nat.sub_0_r.
    symmetry. apply substring_all.
  - destruct s as [|d s]; [discriminate|].
    simpl in H. destruct (ascii_dec c d) as [->|]; [|discriminate].
    rewrite append_String. f_equal. unfold substr in *. simpl. apply IH. exact H.
Qed.

Lemma stripBasename_prefix (path bn : string) :
  String.prefix bn path = true ->
  path = bn +:+ stripBasename path bn.
Proof.
  intros H. unfold stripBasename. rewrite indexOf_0_prefix, H.
  apply prefix_append. exact H.
Qed.

(** [find] gives the first element, in list order, that satisfies the test. *)
Lemma find_first {A} (p : A -> bool) (l : list A) (x : A) :
  List.find p l = Some x <->
  exists l1 l2, l = l1 ++ x :: l2 /\ p x = true /\ forall y, In y l1 -> p y = false.
Proof.
  induction l as [|y l IH]; simpl.
  - split; [discriminate|]. intros (l1 & l2 & H & _). destruct l1; discriminate.
  - destruct (p y) eqn:Hy.
    + split.
      * intros [= ->]. exists [], l. repeat split; auto. intros ? [].
      * intros (l1 & l2 & H & Hx & Hl1). destruct l1 as [|z l1].
        -- injection H as -> _. reflexivity.
        -- injection H as -> _. rewrite (Hl1 z) in Hy; [discriminate|now left].
    + rewrite IH. split.
      * intros (l1 & l2 & -> & Hx & Hl1). exists (y :: l1), l2.
        repeat split; auto. intros z [<-|Hz]; auto.
      * intros (l1 & l2 & H & Hx & Hl1). destruct l1 as [|z l1].
        -- injection H as -> _. congruence.
        -- injection H as -> ->. exists l1, l2. repeat split; auto.
           intros; apply Hl1; now right.
Qed.

Lemma slash_not_external (u : string) :
  charAt 0 u = "/" -> Z.eqb (indexOf u "http") 0 = false.
Proof.
  intros H. rewrite indexOf_0_prefix. destruct u as [|c u]; [discriminate|].
  unfold charAt in H. simpl in H. injection H as ->. reflexivity.
Qed.

Lemma append_inv_head (p s t : string) : p +:+ s = p +:+ t -> s = t.
Proof.
  induction p as [|c p IH]; [intros H; exact H|].
  rewrite !append_String. intros [= H]. auto.
Qed.

(** C2 (as amended).  The basename a link resolves with is the FIRST
    configured basename, in configuration order, that the URL starts with --
    not the longest.  [findBasename] returns exactly that entry; when it is
    non-empty it becomes the basename and is stripped from the URL, and when
    there is none (or it is the empty string) basename and URL are left as
    they were.  For a URL string that starts with such a basename and goes on
    with a slash, the link's full URL is the basename followed by the rest,
    and its action is [toAction] of the rest, carrying the basename. *)
Theorem toUrlAndAction_basename_first_match
    (bns : list string) (url basename : string) :
  (forall bn,
      findBasename url bns = Some bn <->
      exists l1 l2, bns = l1 ++ bn :: l2
                    /\ String.prefix bn url = true
                    /\ forall b, In b l1 -> String.prefix b url = false)
  /\ (forall bn,
        findBasename url bns = Some bn -> bn <> "" ->
        exists rest, url = bn +:+ rest
                     /\ selectBasename (mkOptions (Some bns)) basename url = (bn, rest))
  /\ (findBasename url bns = None \/ findBasename url bns = Some "" ->
      selectBasename (mkOptions (Some bns)) basename url = (basename, url))
  /\ (forall R (U : Utils R) development routes currentPathname bn rest a,
        findBasename url bns = Some bn -> bn <> "" ->
        url = bn +:+ rest -> charAt 0 rest = "/" ->
        toAction U routes (mkOptions (Some bns)) rest = inr a ->
        toUrlAndAction U development (ToString url) routes basename
          currentPathname (mkOptions (Some bns))
        = inr (mkOutput [] (mkResult (bn +:+ rest)
                              (Some (Action.withBasename a bn))))).
Proof.
  assert (Hfirst : forall bn,
      findBasename url bns = Some bn <->
      exists l1 l2, bns = l1 ++ bn :: l2
                    /\ String.prefix bn url = true
                    /\ forall b, In b l1 -> String.prefix b url = false).
  { intros bn. unfold findBasename. rewrite find_first.
    split; intros (l1 & l2 & E & Hp & Hl); exists l1, l2; repeat split; auto.
    - now rewrite <- indexOf_0_prefix.
    - intros b Hb. rewrite <- indexOf_0_prefix. now apply Hl.
    - now rewrite indexOf_0_prefix.
    - intros b Hb. rewrite indexOf_0_prefix. now apply Hl. }
  assert (Hsel : forall bn,
      findBasename url bns = Some bn -> bn <> "" ->
      exists rest, url = bn +:+ rest
                   /\ selectBasename (mkOptions (Some bns)) basename url = (bn, rest)).
  { intros bn Hf Hne. exists (stripBasename url bn). split.
    - apply stripBasename_prefix. apply Hfirst in Hf.
      destruct Hf as (_ & _ & _ & Hp & _). exact Hp.
    - unfold selectBasename. simpl. rewrite Hf.
      destruct bn; [congruence|reflexivity]. }
  repeat split.
  - apply Hfirst.
  - apply Hfirst.
  - exact Hsel.
  - intros [H|H]; unfold selectBasename; simpl; rewrite H; reflexivity.
  - intros R U development routes currentPathname bn rest a Hf Hne Hurl Hslash Ha.
    destruct (Hsel bn Hf Hne) as (rest' & Hurl' & Hs).
    assert (rest' = rest) as -> by (apply (append_inv_head bn); congruence).
    unfold toUrlAndAction.
    assert (Hres : resolveTo U development (ToString url) routes basename
                     (mkOptions (Some bns)) = inr (mkResolved [] url basename None)).
    { destruct url as [|c u]; [|reflexivity].
      destruct bn; [congruence|discriminate]. }
    rewrite Hres, Hs.
    assert (Hhash : String.eqb (charAt 0 rest) "#" = false) by now rewrite Hslash.
    assert (Hsl : String.eqb (charAt 0 rest) "/" = true) by now rewrite Hslash.
    rewrite Hhash, Hsl. cbn [negb].
    rewrite (slash_not_external rest Hslash). cbn [negb].
    rewrite Ha. destruct bn; [congruence|reflexivity].
Qed.

(** A link to '/base/second' with the one basename '/base' configured. *)
Lemma toUrlAndAction_basename_first_match_witness :
  findBasename "/base/second" ["/base"] = Some "/base"
  /\ toUrlAndAction Samples.utils false (ToString "/base/second") tt ""
       "/cur" (mkOptions (Some ["/base"]))
     = inr (mkOutput []
              (mkResult "/base/second"
                 (Some (Action.mk (Some "PAGE") [("url", "/second")] [] None
                          (Some "/base"))))).
Proof.
  split; [reflexivity|].
  destruct (toUrlAndAction_basename_first_match ["/base"] "/base/second" "")
    as (_ & _ & _ & H).
  assert (Hne : "/base" <> "") by discriminate.
  exact (H unit Samples.utils false tt "/cur" "/base" "/second"
           (Action.mk (Some "PAGE") [("url", "/second")] [] None None)
           eq_refl Hne eq_refl eq_refl eq_refl).
Defined.

(** C2 as stated fails: with basenames ['/a', '/a/b'] and the URL '/a/b/c',
    the longer configured basename '/a/b' is a prefix of the URL, yet '/a' is
    the one that is found, stripped (the rest is '/b/c') and put on the
    action. *)
Lemma toUrlAndAction_basename_not_longest :
  findBasename "/a/b/c" ["/a"; "/a/b"] = Some "/a"
  /\ In "/a/b" ["/a"; "/a/b"]
  /\ String.prefix "/a/b" "/a/b/c" = true
  /\ String.length "/a" < String.length "/a/b"
  /\ toUrlAndAction Samples.utils false (ToString "/a/b/c") tt "" "/cur"
       (mkOptions (Some ["/a"; "/a/b"]))
     = inr (mkOutput []
              (mkResult "/a/b/c"
                 (Some (Action.mk (Some "PAGE") [("url", "/b/c")] [] None
                          (Some "/a"))))).
Proof.
  repeat split; try reflexivity.
  - right; left; reflexivity.
  - simpl. lia.
Qed.

(** C5.  When URL generation from the action fails, whatever the failure,
    the helper does not throw: [url] falls back to '#', the only console
    output is the warning, and only in development mode.  Unless '#' itself
    is a configured basename, the link (on a current path that starts with a
    slash) then points at the basename, the current path and '#', and the
    action is handed back (with the basename, when there is one). *)
Theorem toUrlAndAction_action_failure_falls_back
    {R} (U : Utils R) (development : bool) (a : Action.t) (routes : R)
    (basename currentPathname : string) (options : Options) (e : exn) :
  actionToUrl U a routes options = inl e ->
  resolveTo U development (ToAction a) routes basename options
  = inr (mkResolved (if development then [warning] else []) "#" basename (Some a))
  /\ (exists out,
        toUrlAndAction U development (ToAction a) routes basename
          currentPathname options = inr out
        /\ warnings out = (if development then [warning] else []))
  /\ ((forall bns, basenames options = Some bns -> ~ In "#" bns) ->
      charAt 0 currentPathname = "/" ->
      toUrlAndAction U development (ToAction a) routes basename
        currentPathname options
      = inr (mkOutput (if development then [warning] else [])
               (mkResult (basename +:+ currentPathname +:+ "#")
                  (Some (if nonEmpty basename
                         then Action.withBasename a basename else a))))).
Proof.
  intros Hfail.
  assert (Hres : resolveTo U development (ToAction a) routes basename options
    = inr (mkResolved (if development then [warning] else []) "#" basename (Some a))).
  { unfold resolveTo. rewrite Hfail. reflexivity. }
  split; [exact Hres|]. split.
  - unfold toUrlAndAction. rewrite Hres.
    destruct (selectBasename options basename "#") as [b u].
    match goal with
    | |- context [Z.eqb (indexOf ?x "http") 0] => destruct (Z.eqb (indexOf x "http") 0)
    end; destruct (nonEmpty b); eexists; split; reflexivity.
  - intros Hno Hcur. unfold toUrlAndAction. rewrite Hres.
    assert (Hsel : selectBasename options basename "#" = (basename, "#")).
    { unfold selectBasename. destruct (basenames options) as [bns|] eqn:Hb;
        [|reflexivity].
      destruct (findBasename "#" bns) as [bn|] eqn:Hf; [|reflexivity].
      destruct bn as [|c bn]; [reflexivity|].
      exfalso. apply (Hno bns eq_refl).
      unfold findBasename in Hf. apply find_first in Hf.
      destruct Hf as (l1 & l2 & -> & Hp & _).
      rewrite indexOf_0_prefix in Hp. simpl in Hp.
      destruct (ascii_dec c "#") as [->|]; [|discriminate].
      destruct bn; [|discriminate].
      apply in_or_app. right. left. reflexivity. }
    rewrite Hsel. cbn [charAt String.get].
    change (String.eqb "#" "#") with true. cbv iota.
    assert (Hext : Z.eqb (indexOf (currentPathname +:+ "#") "http") 0 = false).
    { apply slash_not_external. destruct currentPathname as [|c cur];
        [discriminate|]. rewrite append_String. exact Hcur. }
    rewrite Hext. destruct (nonEmpty basename); reflexivity.
Qed.

(** An action whose URL cannot be generated, in development mode. *)
Lemma toUrlAndAction_action_failure_witness :
  actionToUrl Samples.utils Samples.second tt (mkOptions (Some ["/base"]))
  = inl (Thrown "ParamMismatch")
  /\ toUrlAndAction Samples.utils true (ToAction Samples.second) tt "/base"
       "/cur" (mkOptions (Some ["/base"]))
     = inr (mkOutput [warning]
              (mkResult "/base/cur#"
                 (Some (Action.withBasename Samples.second "/base")))).
Proof.
  split; [reflexivity|].
  apply (toUrlAndAction_action_failure_falls_back Samples.utils true
           Samples.second tt "/base" "/cur" (mkOptions (Some ["/base"]))
           (Thrown "ParamMismatch") eq_refl).
  - intros bns [= <-] [H|[]]. discriminate H.
  - reflexivity.
Defined.

Lemma dispatched_app (l1 l2 : list effect) :
  dispatched (l1 ++ l2) = dispatched l1 ++ dispatched l2.
Proof. unfold dispatched. apply flat_map_app. Qed.

(** C10.  The press handler dispatches if and only if an action was
    resolved, the [onClick] handler (when there is one) did not return
    [false], [shouldDispatch] holds, no target is set (absent or empty), the
    event was not default-prevented, no modifier key was held and the button
    is 0.  It then dispatches exactly once: the action, or its redirect when
    [isRedirect]; otherwise it dispatches nothing. *)
Theorem handlePress_dispatches_iff
    (redirect : Action.t -> Action.t) (action : option Action.t)
    (shouldDispatch : bool) (onClick : option (Event -> option bool))
    (target : option string) (isRedirect : bool) (fullUrl : string)
    (history : History) (e : Event) :
  let fx := handlePress redirect action shouldDispatch onClick target
              isRedirect fullUrl history e in
  let go :=
    (exists a, action = Some a)
    /\ (forall handler, onClick = Some handler -> handler e <> Some false)
    /\ shouldDispatch = true
    /\ (target = None \/ target = Some "")
    /\ defaultPrevented e = false
    /\ (metaKey e = false /\ altKey e = false /\ ctrlKey e = false
        /\ shiftKey e = false)
    /\ button e = 0%Z in
  ((exists a, In (Dispatch a) fx) <-> go)
  /\ (go -> exists a, action = Some a
                     /\ dispatched fx = [if isRedirect then redirect a else a])
  /\ (~ go -> dispatched fx = []).
Proof.
  cbv zeta.
  set (go :=
    (exists a, action = Some a)
    /\ (forall handler, onClick = Some handler -> handler e <> Some false)
    /\ shouldDispatch = true
    /\ (target = None \/ target = Some "")
    /\ defaultPrevented e = false
    /\ (metaKey e = false /\ altKey e = false /\ ctrlKey e = false
        /\ shiftKey e = false)
    /\ button e = 0%Z).
  set (fx := handlePress redirect action shouldDispatch onClick target
               isRedirect fullUrl history e).
  assert (Hpre : forall fx1 fx2 : list effect,
    (forall x, In x fx1 -> x = OnClick) ->
    (forall x, In x fx2 -> x = PreventDefault) ->
    dispatched (fx1 ++ fx2) = []).
  { intros fx1 fx2 H1 H2. rewrite dispatched_app.
    assert (E1 : dispatched fx1 = []).
    { clear -H1. induction fx1 as [|x l IH]; [reflexivity|].
      simpl. rewrite (H1 x (or_introl eq_refl)). simpl. apply IH.
      intros; apply H1; now right. }
    assert (E2 : dispatched fx2 = []).
    { clear -H2. induction fx2 as [|x l IH]; [reflexivity|].
      simpl. rewrite (H2 x (or_introl eq_refl)). simpl. apply IH.
      intros; apply H2; now right. }
    now rewrite E1, E2. }
  assert (Hgo : go -> exists a, action = Some a
                  /\ dispatched fx = [if isRedirect then redirect a else a]).
  { intros ((a & ->) & Hclick & -> & Htarget & Hprev & (Hm & Ha & Hc & Hs) & Hb).
    exists a. split; [reflexivity|].
    subst fx. unfold handlePress, isModified.
    rewrite Hprev, Hm, Ha, Hc, Hs, Hb. simpl.
    assert (Ht : match target with Some s => negb (nonEmpty s) | None => true end = true)
      by (destruct Htarget as [->| ->]; reflexivity).
    rewrite Ht.
    destruct onClick as [handler|].
    - specialize (Hclick handler eq_refl).
      destruct (handler e) as [[|]|]; try congruence;
        destruct (preventDefault e); reflexivity.
    - destruct (preventDefault e); reflexivity. }
  assert (Hstop : ~ go -> dispatched fx = []).
  { intros Hn. subst fx. unfold handlePress.
    set (clicked := match onClick with
                    | Some handler =>
                        (match handler e with Some false => false | _ => true end,
                         [OnClick])
                    | None => (true, [])
                    end).
    assert (Hc1 : forall x, In x (snd clicked) -> x = OnClick).
    { subst clicked. destruct onClick; simpl; intros x Hx;
        [destruct Hx as [<-|[]]; reflexivity|destruct Hx]. }
    destruct clicked as [shouldGo fx1] eqn:Hclicked. simpl in Hc1.
    set (noTarget := match target with
                     | Some s => negb (nonEmpty s)
                     | None => true
                     end).
    set (fx2 := if noTarget && preventDefault e && negb (isModified e)
                then [PreventDefault] else []).
    assert (Hc2 : forall x, In x fx2 -> x = PreventDefault).
    { subst fx2. destruct (noTarget && preventDefault e && negb (isModified e));
        simpl; intros x []; auto. contradiction. }
    destruct action as [a|].
    - destruct (shouldGo && shouldDispatch && noTarget
                && negb (defaultPrevented e) && negb (isModified e)
                && Z.eqb (button e) 0) eqn:Hall.
      + exfalso. apply Hn. unfold go.
        repeat (apply andb_prop in Hall; destruct Hall as [Hall ?]).
        split; [eauto|]. split.
        { intros handler ->. subst clicked. injection Hclicked as <- _.
          destruct (handler e) as [[|]|]; congruence. }
        split; [assumption|]. split.
        { subst noTarget. destruct target as [[|]|]; auto. discriminate. }
        split; [now apply negb_true_iff|]. split.
        { unfold isModified in *.
          destruct (metaKey e), (altKey e), (ctrlKey e), (shiftKey e);
            try discriminate; auto. }
        now apply Z.eqb_eq.
      + apply Hpre; assumption.
    - destruct (noTarget && Z.eqb (indexOf fullUrl "http") 0).
      + rewrite app_assoc, dispatched_app, Hpre by assumption.
        destruct (Z.eqb (index history) 0); reflexivity.
      + apply Hpre; assumption. }
  assert (Hin : forall a l, In (Dispatch a) l <-> In a (dispatched l)).
  { intros a l. unfold dispatched. rewrite in_flat_map. split.
    - intros H. exists (Dispatch a). split; [exact H|now left].
    - intros (x & Hx & Hd). destruct x; simpl in Hd; try contradiction.
      destruct Hd as [->|[]]. exact Hx. }
  assert (Hdec : go \/ ~ go).
  { unfold go.
    assert (D1 : (exists a, action = Some a) \/ ~ (exists a, action = Some a)).
    { destruct action; [left; eauto|right; intros (a & H); discriminate]. }
    assert (D2 : (forall handler, onClick = Some handler -> handler e <> Some false)
                 \/ ~ (forall handler, onClick = Some handler -> handler e <> Some false)).
    { destruct onClick as [h|].
      - destruct (h e) as [[|]|] eqn:Hh.
        + left. intros ? [= <-]. congruence.
        + right. intros H. apply (H h eq_refl). exact Hh.
        + left. intros ? [= <-]. congruence.
      - left. intros ? [=]. }
    assert (D3 : shouldDispatch = true \/ shouldDispatch <> true)
      by (destruct shouldDispatch; [left|right]; congruence).
    assert (D4 : (target = None \/ target = Some "")
                 \/ ~ (target = None \/ target = Some "")).
    { destruct target as [[|c t]|].
      - left; right; reflexivity.
      - right; intros [H|H]; discriminate.
      - left; left; reflexivity. }
    assert (D5 : defaultPrevented e = false \/ defaultPrevented e <> false)
      by (destruct (defaultPrevented e); [right|left]; congruence).
    assert (D6 : (metaKey e = false /\ altKey e = false /\ ctrlKey e = false
                  /\ shiftKey e = false)
                 \/ ~ (metaKey e = false /\ altKey e = false /\ ctrlKey e = false
                       /\ shiftKey e = false)).
    { destruct (metaKey e), (altKey e), (ctrlKey e), (shiftKey e);
        try (left; repeat split; reflexivity);
        right; intros (? & ? & ? & ?); discriminate. }
    assert (D7 : button e = 0%Z \/ button e <> 0%Z)
      by (destruct (Z.eq_dec (button e) 0%Z); [left|right]; assumption).
    tauto. }
  split; [|split; assumption].
  split.
  - intros (a & Ha). destruct Hdec as [H|H]; [exact H|].
    apply Hin in Ha. rewrite (Hstop H) in Ha. destruct Ha.
  - intros H. destruct (Hgo H) as (a & _ & E). eexists. apply Hin. rewrite E.
    now left.
Qed.

(** A plain left click on a link with an action and no [onClick]: the
    action is dispatched. *)
Lemma handlePress_dispatches_witness :
  dispatched
    (handlePress (fun a => a) (Some Samples.second) true None None false
       "/second" (mkHistory 0) Samples.leftClick)
  = [Samples.second].
Proof.
  destruct (handlePress_dispatches_iff (fun a => a) (Some Samples.second) true
              None None false "/second" (mkHistory 0) Samples.leftClick)
    as (_ & Hgo & _).
  destruct Hgo as (a & Ha & Hd).
  - split; [eauto|]. split; [discriminate|]. repeat split; auto.
  - injection Ha as <-. exact Hd.
Defined.

(** ** Further properties of [toUrlAndAction] *)

Lemma prefix_append_l (p s : string) : String.prefix p (p +:+ s) = true.
Proof.
  induction p as [|c p IH]; [destruct s; reflexivity|].
  rewrite append_String. simpl. destruct (ascii_dec c c); [exact IH|congruence].
Qed.

Lemma selectBasename_none (options : Options) (basename url : string) :
  (forall bns, basenames options = Some bns -> findBasename url bns = None) ->
  selectBasename options basename url = (basename, url).
Proof.
  intros H. unfold selectBasename. destruct (basenames options) as [bns|];
    [|reflexivity].
  now rewrite (H bns eq_refl).
Qed.

(** The rest of the function once [url] starts with a slash. *)
Lemma toUrlAndAction_slash {R} (U : Utils R) development to (routes : R)
    basename currentPathname options ws url bn act :
  resolveTo U development to routes basename options
  = inr (mkResolved ws url bn act) ->
  (forall bns, basenames options = Some bns -> findBasename url bns = None) ->
  charAt 0 url = "/" ->
  toUrlAndAction U development to routes basename currentPathname options
  = match act with
    | Some a =>
        inr (mkOutput ws
               (mkResult (bn +:+ url)
                  (Some (if nonEmpty bn then Action.withBasename a bn else a))))
    | None =>
        match toAction U routes options url with
        | inl e => inl e
        | inr a =>
            inr (mkOutput ws
                   (mkResult (bn +:+ url)
                      (Some (if nonEmpty bn then Action.withBasename a bn
                             else a))))
        end
    end.
Proof.
  intros Hres Hno Hslash. unfold toUrlAndAction.
  rewrite Hres, (selectBasename_none _ _ _ Hno), Hslash.
  change (String.eqb "/" "#") with false.
  change (String.eqb "/" "/") with true. cbn [negb].
  rewrite (slash_not_external url Hslash). cbn [negb].
  destruct act as [a|]; [destruct (nonEmpty bn); reflexivity|].
  destruct (toAction U routes options url) as [e|a]; [reflexivity|].
  destruct (nonEmpty bn); reflexivity.
Qed.

Lemma slash_nonEmpty (s : string) : charAt 0 s = "/" -> nonEmpty s = true.
Proof. destruct s; [discriminate|reflexivity]. Qed.

(** A link that comes without an action points outside the application. *)
Lemma toUrlAndAction_no_action {R} (U : Utils R) development to (routes : R)
    basename currentPathname options out :
  toUrlAndAction U development to routes basename currentPathname options
  = inr out ->
  action (result out) = None ->
  String.prefix "http" (fullUrl (result out)) = true.
Proof.
  unfold toUrlAndAction.
  destruct (resolveTo U development to routes basename options)
    as [e|[ws url bn act]]; [discriminate|].
  destruct (selectBasename options bn url) as [b u].
  match goal with
  | |- context [Z.eqb (indexOf ?x "http") 0] =>
      generalize (indexOf_0_prefix x "http");
      destruct (Z.eqb (indexOf x "http") 0); intros Hext
  end; cbn [negb];
    destruct act as [a|]; try destruct (toAction U routes options _);
    try discriminate; destruct (nonEmpty b); intros [= <-]; simpl;
    try discriminate; intros _; now symmetry.
Qed.

(** A link made from an action always comes with an action. *)
Lemma toUrlAndAction_keeps_action {R} (U : Utils R) development a (routes : R)
    basename currentPathname options out :
  toUrlAndAction U development (ToAction a) routes basename currentPathname
    options = inr out ->
  action (result out) <> None.
Proof.
  unfold toUrlAndAction, resolveTo.
  destruct (actionToUrl U a routes options) as [e|url];
    match goal with
    | |- context [selectBasename ?o ?b ?u] =>
        destruct (selectBasename o b u) as [b' u']
    end; destruct (nonEmpty b'); intros [= <-]; discriminate.
Qed.

(** X6.  [stripBasename] undoes the prepending of a basename: stripping
    [bn] from [bn] followed by [rest] gives [rest], and a path that does not
    start with [bn] is returned as it is.  What [findBasename] finds is one
    of the configured basenames, and putting it back in front of the
    stripped path gives the path again; it finds nothing exactly when no
    configured basename is a prefix of the path. *)
Theorem stripBasename_round_trip (bns : list string) :
  (forall bn rest, stripBasename (bn +:+ rest) bn = rest)
  /\ (forall path bn,
        String.prefix bn path = false -> stripBasename path bn = path)
  /\ (forall path bn,
        findBasename path bns = Some bn ->
        In bn bns /\ bn +:+ stripBasename path bn = path)
  /\ (forall path,
        findBasename path bns = None <->
        forall bn, In bn bns -> String.prefix bn path = false).
Proof.
  repeat split.
  - intros bn rest. apply (append_inv_head bn). symmetry.
    apply stripBasename_prefix. apply prefix_append_l.
  - intros path bn H. unfold stripBasename. now rewrite indexOf_0_prefix, H.
  - unfold findBasename in H. apply find_some in H. tauto.
  - unfold findBasename in H. apply find_some in H. destruct H as [_ H].
    rewrite indexOf_0_prefix in H. symmetry. now apply stripBasename_prefix.
  - intros H bn Hin. unfold findBasename in H.
    rewrite <- indexOf_0_prefix. exact (find_none _ _ H bn Hin).
  - intros H. unfold findBasename.
    induction bns as [|b l IH]; [reflexivity|]. simpl.
    rewrite indexOf_0_prefix, (H b (or_introl eq_refl)).
    apply IH. intros bn Hin. apply H. now right.
Qed.

(** The second of two configured basenames, found and put back. *)
Lemma stripBasename_round_trip_witness :
  findBasename "/base/second" ["/app"; "/base"] = Some "/base"
  /\ "/base" +:+ stripBasename "/base/second" "/base" = "/base/second".
Proof.
  split; [reflexivity|].
  destruct (stripBasename_round_trip ["/app"; "/base"]) as (_ & _ & H & _).
  exact (proj2 (H "/base/second" "/base" eq_refl)).
Defined.

(** X7.  An array as [to].  The empty array makes the helper throw a
    [TypeError], since it reads [to[0].charAt].  When the first segment
    starts with a slash it becomes the basename, and the URL is a slash
    followed by the other segments joined with slashes; otherwise the URL is
    made of all the segments and the basename argument is kept.  (For a URL
    that starts with none of the configured basenames.) *)
Theorem toUrlAndAction_array_segments {R} (U : Utils R) (development : bool)
    (routes : R) (basename currentPathname : string) (options : Options) :
  toUrlAndAction U development (ToArray []) routes basename currentPathname
    options
  = inl (TypeError "Cannot read property 'charAt' of undefined")
  /\ (forall first rest a,
        charAt 0 first = "/" ->
        (forall bns, basenames options = Some bns ->
                     findBasename ("/" +:+ join "/" rest) bns = None) ->
        toAction U routes options ("/" +:+ join "/" rest) = inr a ->
        toUrlAndAction U development (ToArray (first :: rest)) routes basename
          currentPathname options
        = inr (mkOutput []
                 (mkResult (first +:+ "/" +:+ join "/" rest)
                    (Some (Action.withBasename a first)))))
  /\ (forall first rest a,
        charAt 0 first <> "/" ->
        (forall bns, basenames options = Some bns ->
                     findBasename ("/" +:+ join "/" (first :: rest)) bns = None) ->
        toAction U routes options ("/" +:+ join "/" (first :: rest)) = inr a ->
        toUrlAndAction U development (ToArray (first :: rest)) routes basename
          currentPathname options
        = inr (mkOutput []
                 (mkResult (basename +:+ "/" +:+ join "/" (first :: rest))
                    (Some (if nonEmpty basename
                           then Action.withBasename a basename else a))))).
Proof.
  split; [reflexivity|]. split.
  - intros first rest a Hfirst Hno Ha.
    rewrite (toUrlAndAction_slash U development _ routes basename
               currentPathname options [] ("/" +:+ join "/" rest) first None).
    + now rewrite Ha, (slash_nonEmpty first Hfirst).
    + unfold resolveTo. now rewrite Hfirst.
    + exact Hno.
    + reflexivity.
  - intros first rest a Hfirst Hno Ha.
    rewrite (toUrlAndAction_slash U development _ routes basename
               currentPathname options [] ("/" +:+ join "/" (first :: rest))
               basename None).
    + now rewrite Ha.
    + unfold resolveTo. destruct (String.eqb_spec (charAt 0 first) "/");
        [contradiction|reflexivity].
    + exact Hno.
    + reflexivity.
Qed.

(** ['/base', 'posts', '7'] links to '/posts/7' under the basename '/base'. *)
Lemma toUrlAndAction_array_segments_witness :
  toUrlAndAction Samples.utils false (ToArray ["/base"; "posts"; "7"]) tt ""
    "/cur" (mkOptions None)
  = inr (mkOutput []
           (mkResult "/base/posts/7"
              (Some (Action.mk (Some "PAGE") [("url", "/posts/7")] [] None
                       (Some "/base"))))).
Proof.
  destruct (toUrlAndAction_array_segments Samples.utils false tt "" "/cur"
              (mkOptions None)) as (_ & H & _).
  exact (H "/base" ["posts"; "7"]
           (Action.mk (Some "PAGE") [("url", "/posts/7")] [] None None)
           eq_refl ltac:(discriminate) eq_refl).
Defined.




(** X9.  Hash links.  An absent [to] and the empty string behave as the
    string '#'.  A [to] that starts with '#' stays on the current page: the
    URL is the current path followed by [to], the action is [toAction] of
    that URL, and the basename is put in front of the one and on the
    other. *)
Theorem toUrlAndAction_hash_link {R} (U : Utils R) (development : bool)
    (routes : R) (basename currentPathname : string) (options : Options) :
  toUrlAndAction U development ToUndefined routes basename currentPathname
    options
  = toUrlAndAction U development (ToString "#") routes basename
      currentPathname options
  /\ toUrlAndAction U development (ToString "") routes basename
       currentPathname options
     = toUrlAndAction U development (ToString "#") routes basename
         currentPathname options
  /\ (forall s a,
        charAt 0 s = "#" ->
        charAt 0 currentPathname = "/" ->
        (forall bns, basenames options = Some bns ->
                     findBasename s bns = None) ->
        toAction U routes options (currentPathname +:+ s) = inr a ->
        toUrlAndAction U development (ToString s) routes basename
          currentPathname options
        = inr (mkOutput []
                 (mkResult (basename +:+ currentPathname +:+ s)
                    (Some (if nonEmpty basename
                           then Action.withBasename a basename else a))))).
Proof.
  split; [reflexivity|]. split; [reflexivity|].
  intros s a Hs Hcur Hno Ha. unfold toUrlAndAction.
  assert (Hres : resolveTo U development (ToString s) routes basename options
                 = inr (mkResolved [] s basename None)).
  { destruct s; [discriminate|reflexivity]. }
  rewrite Hres, (selectBasename_none _ _ _ Hno), Hs.
  change (String.eqb "#" "#") with true. cbv iota.
  assert (Hext : Z.eqb (indexOf (currentPathname +:+ s) "http") 0 = false).
  { apply slash_not_external. destruct currentPathname as [|c cur];
      [discriminate|]. rewrite append_String. exact Hcur. }
  rewrite Hext. cbn [negb]. rewrite Ha.
  destruct (nonEmpty basename); reflexivity.
Qed.

(** '#top' on the page '/cur', under the basename '/base'. *)
Lemma toUrlAndAction_hash_link_witness :
  toUrlAndAction Samples.utils false (ToString "#top") tt "/base" "/cur"
    (mkOptions (Some ["/base"]))
  = inr (mkOutput []
           (mkResult "/base/cur#top"
              (Some (Action.mk (Some "PAGE") [("url", "/cur#top")] [] None
                       (Some "/base"))))).
Proof.
  destruct (toUrlAndAction_hash_link Samples.utils false tt "/base" "/cur"
              (mkOptions (Some ["/base"]))) as (_ & _ & H).
  refine (H "#top" (Action.mk (Some "PAGE") [("url", "/cur#top")] [] None None)
            eq_refl eq_refl _ eq_refl).
  intros bns [= <-]. reflexivity.
Defined.

(** X10.  What a successful call returns.  A link without an action points
    outside the application (its URL starts with 'http') and was not made
    from an action.  A link made from an action comes with that action,
    changed at most in its basename.  Outside development mode nothing is
    written to the console. *)
Theorem toUrlAndAction_result_invariants {R} (U : Utils R) (development : bool)
    (to : To) (routes : R) (basename currentPathname : string)
    (options : Options) (out : Output) :
  toUrlAndAction U development to routes basename currentPathname options
  = inr out ->
  (action (result out) = None ->
     String.prefix "http" (fullUrl (result out)) = true
     /\ forall a, to <> ToAction a)
  /\ (forall a0 a,
        to = ToAction a0 -> action (result out) = Some a ->
        a = a0 \/ exists bn, bn <> "" /\ a = Action.withBasename a0 bn)
  /\ (forall a0, to = ToAction a0 -> action (result out) <> None)
  /\ (development = false -> warnings out = []).
Proof.
  intros H. split; [|split; [|split]].
  - intros Hnone. split.
    + exact (toUrlAndAction_no_action _ _ _ _ _ _ _ _ H Hnone).
    + intros a ->. revert H Hnone. unfold toUrlAndAction, resolveTo.
      destruct (actionToUrl U a routes options) as [e|url];
        match goal with
        | |- context [selectBasename ?o ?b ?u] =>
            destruct (selectBasename o b u) as [b' u']
        end; destruct (nonEmpty b'); intros [= <-]; discriminate.
  - intros a0 a ->. revert H. unfold toUrlAndAction, resolveTo.
    destruct (actionToUrl U a0 routes options) as [e|url];
      match goal with
      | |- context [selectBasename ?o ?b ?u] =>
          destruct (selectBasename o b u) as [b' u']
      end; destruct b' as [|c b']; intros [= <-]; simpl; intros [= <-];
      try (now left); right; eexists; (split; [|reflexivity]); discriminate.
  - intros a0 ->. exact (toUrlAndAction_keeps_action _ _ _ _ _ _ _ _ H).
  - intros ->. revert H. unfold toUrlAndAction.
    destruct (resolveTo U false to routes basename options)
      as [e|[ws url bn act]] eqn:Hres; [discriminate|].
    assert (Hws : ws = []).
    { revert Hres. unfold resolveTo.
      destruct to as [| |[|c s]|[|first rest]|a]; try congruence.
      - destruct (String.eqb (charAt 0 first) "/"); congruence.
      - destruct (actionToUrl U a routes options); congruence. }
    subst ws.
    destruct (selectBasename options bn url) as [b u].
    match goal with
    | |- context [Z.eqb (indexOf ?x "http") 0] =>
        destruct (Z.eqb (indexOf x "http") 0)
    end; cbn [negb];
      destruct act as [a|]; try destruct (toAction U routes options _);
      try discriminate; intros [= <-]; reflexivity.
Qed.

(** An absolute URL comes back without an action. *)
Lemma toUrlAndAction_result_invariants_witness :
  toUrlAndAction Samples.utils false (ToString "http://example.com/x") tt ""
    "/cur" (mkOptions None)
  = inr (mkOutput [] (mkResult "http://example.com/x" None))
  /\ String.prefix "http" "http://example.com/x" = true.
Proof.
  split; [reflexivity|].
  exact (proj1 (proj1 (toUrlAndAction_result_invariants Samples.utils false
                         (ToString "http://example.com/x") tt "" "/cur"
                         (mkOptions None) _ eq_refl) eq_refl)).
Defined.

(** X11.  The helper fails in two ways only: on the empty array, with the
    [TypeError] of reading its first segment, and with whatever [toAction]
    throws for the URL of a link that was not made from an action.  What
    [actionToUrl] throws never reaches the caller. *)
Theorem toUrlAndAction_failures {R} (U : Utils R) (development : bool)
    (to : To) (routes : R) (basename currentPathname : string)
    (options : Options) (e : exn) :
  toUrlAndAction U development to routes basename currentPathname options
  = inl e ->
  (to = ToArray []
   /\ e = TypeError "Cannot read property 'charAt' of undefined")
  \/ ((forall a, to <> ToAction a)
      /\ exists url, toAction U routes options url = inl e).
Proof.
  unfold toUrlAndAction.
  destruct (resolveTo U development to routes basename options)
    as [e'|[ws url bn act]] eqn:Hres.
  - intros [= ->]. left. revert Hres. unfold resolveTo.
    destruct to as [| |[|c s]|[|first rest]|a]; try discriminate.
    + intros [= <-]. now split.
    + destruct (String.eqb (charAt 0 first) "/"); discriminate.
    + destruct (actionToUrl U a routes options); discriminate.
  - destruct (selectBasename options bn url) as [b u].
    match goal with
    | |- context [Z.eqb (indexOf ?x "http") 0] =>
        destruct (Z.eqb (indexOf x "http") 0)
    end; cbn [negb]; destruct act as [a|]; try discriminate.
    match goal with
    | |- context [toAction U routes options ?x] =>
        destruct (toAction U routes options x) as [e'|a] eqn:Ha
    end; [|discriminate].
    intros [= ->]. right. split; [|eauto].
    intros a ->. revert Hres. unfold resolveTo.
    destruct (actionToUrl U a routes options); discriminate.
Qed.

(** A URL for which [toAction] finds no route. *)
Lemma toUrlAndAction_failures_witness :
  toUrlAndAction Samples.strict false (ToString "/nowhere") tt "" "/cur"
    (mkOptions None)
  = inl (Thrown "no route")
  /\ exists url, toAction Samples.strict tt (mkOptions None) url
                 = inl (Thrown "no route").
Proof.
  split; [reflexivity|].
  destruct (toUrlAndAction_failures Samples.strict false (ToString "/nowhere")
              tt "" "/cur" (mkOptions None) (Thrown "no route") eq_refl)
    as [[H _]|[_ H]]; [discriminate H|exact H].
Defined.

(** X12.  The basename of a link made from an action whose URL can be
    generated: the action's own [basename] when it has one -- the empty
    string included, which then removes the basename argument -- and the
    basename argument otherwise.  (For a URL that starts with a slash and
    with none of the configured basenames.) *)
Theorem toUrlAndAction_action_basename {R} (U : Utils R) (development : bool)
    (a : Action.t) (routes : R) (basename currentPathname : string)
    (options : Options) (url : string) :
  actionToUrl U a routes options = inr url ->
  charAt 0 url = "/" ->
  (forall bns, basenames options = Some bns -> findBasename url bns = None) ->
  let bn := match Action.basename a with
            | Some b => b
            | None => basename
            end in
  toUrlAndAction U development (ToAction a) routes basename currentPathname
    options
  = inr (mkOutput []
           (mkResult (bn +:+ url)
              (Some (if nonEmpty bn then Action.withBasename a bn else a)))).
Proof.
  intros Hurl Hslash Hno bn.
  apply (toUrlAndAction_slash U development (ToAction a) routes basename
           currentPathname options [] url bn (Some a)); auto.
  unfold resolveTo. now rewrite Hurl.
Qed.

(** An action with the empty basename, linked under the basename '/base'. *)
Lemma toUrlAndAction_action_basename_witness :
  actionToUrl Samples.typed Samples.rooted tt (mkOptions None) = inr "/SECOND"
  /\ toUrlAndAction Samples.typed false (ToAction Samples.rooted) tt "/base"
       "/cur" (mkOptions None)
     = inr (mkOutput [] (mkResult "/SECOND" (Some Samples.rooted))).
Proof.
  split; [reflexivity|].
  refine (toUrlAndAction_action_basename Samples.typed false Samples.rooted tt
            "/base" "/cur" (mkOptions None) "/SECOND" eq_refl eq_refl _).
  discriminate.
Defined.

(** ** Further properties of [handlePress] *)

(** The effects of a press, in the order of the source: the [onClick]
    handler, [preventDefault], then the dispatch or the navigation. *)
Lemma handlePress_effects
    (redirect : Action.t -> Action.t) (action : option Action.t)
    (shouldDispatch : bool) (onClick : option (Event -> option bool))
    (target : option string) (isRedirect : bool) (fullUrl : string)
    (history : History) (e : Event) :
  let noTarget := match target with
                  | Some s => negb (nonEmpty s)
                  | None => true
                  end in
  let shouldGo := match onClick with
                  | Some handler =>
                      match handler e with Some false => false | _ => true end
                  | None => true
                  end in
  handlePress redirect action shouldDispatch onClick target isRedirect fullUrl
    history e
  = match onClick with Some _ => [OnClick] | None => [] end
    ++ (if noTarget && preventDefault e && negb (isModified e)
        then [PreventDefault] else [])
    ++ match action with
       | Some a =>
           if shouldGo && shouldDispatch && noTarget
              && negb (defaultPrevented e) && negb (isModified e)
              && Z.eqb (button e) 0
           then [Dispatch (if isRedirect then redirect a else a)]
           else []
       | None =>
           if noTarget && Z.eqb (indexOf fullUrl "http") 0
           then (if Z.eqb (index history) 0 then [SaveHistory] else [])
                  ++ [SetLocationHref fullUrl]
           else []
       end.
Proof.
  cbv zeta. unfold handlePress.
  destruct onClick as [handler|], action as [a|];
    repeat match goal with
           | |- context [if ?b then _ else _] => destruct b
           end;
    rewrite ?app_nil_r; reflexivity.
Qed.

Lemma noTarget_iff (target : option string) :
  match target with Some s => negb (nonEmpty s) | None => true end = true
  <-> target = None \/ target = Some "".
Proof.
  destruct target as [[|c t]|]; simpl; split; auto; try discriminate.
  intros [H|H]; discriminate.
Qed.

Lemma isModified_false (e : Event) :
  isModified e = false
  <-> metaKey e = false /\ altKey e = false /\ ctrlKey e = false
      /\ shiftKey e = false.
Proof.
  unfold isModified.
  destruct (metaKey e), (altKey e), (ctrlKey e), (shiftKey e); simpl;
    intuition discriminate.
Qed.

(** X13.  The press handler calls [preventDefault] if and only if no
    target is set, the event has the method and no modifier key is held --
    whether or not there is an action, and whatever [onClick] answers.  The
    [onClick] handler is consulted exactly when there is one.  The event is
    prevented at most once, after [onClick] and before anything else. *)
Theorem handlePress_prevents_default
    (redirect : Action.t -> Action.t) (action : option Action.t)
    (shouldDispatch : bool) (onClick : option (Event -> option bool))
    (target : option string) (isRedirect : bool) (fullUrl : string)
    (history : History) (e : Event) :
  let fx := handlePress redirect action shouldDispatch onClick target
              isRedirect fullUrl history e in
  (In PreventDefault fx <->
     (target = None \/ target = Some "")
     /\ preventDefault e = true
     /\ metaKey e = false /\ altKey e = false /\ ctrlKey e = false
     /\ shiftKey e = false)
  /\ (In OnClick fx <-> onClick <> None)
  /\ (forall l1 l2, fx = l1 ++ PreventDefault :: l2 ->
                    ~ In PreventDefault l1 /\ ~ In PreventDefault l2
                    /\ ~ In OnClick l2
                    /\ forall x, In x l1 -> x = OnClick).
Proof.
  cbv zeta. rewrite handlePress_effects. cbv zeta.
  rewrite <- isModified_false, <- noTarget_iff.
  set (noTarget := match target with
                   | Some s => negb (nonEmpty s)
                   | None => true
                   end).
  set (tail := match action with Some a => _ | None => _ end).
  assert (Htail : forall x, In x tail -> x <> OnClick /\ x <> PreventDefault).
  { subst tail. destruct action as [a|];
      repeat match goal with
             | |- context [if ?b then _ else _] => destruct b
             end;
      simpl; intuition (subst; discriminate). }
  assert (Hnp : ~ In PreventDefault tail)
    by (intros H; apply Htail in H; tauto).
  assert (Hnc : ~ In OnClick tail)
    by (intros H; apply Htail in H; tauto).
  clearbody tail.
  destruct (noTarget && preventDefault e && negb (isModified e)) eqn:Hp.
  - apply andb_prop in Hp as [Hp Hm]. apply andb_prop in Hp as [Ht Hpd].
    apply negb_true_iff in Hm.
    split; [|split].
    + split; [tauto|]. intros _. apply in_or_app. right. now left.
    + destruct onClick; simpl; intuition (try discriminate; try congruence).
    + intros l1 l2 Heq. destruct onClick as [handler|]; simpl in Heq.
      * destruct l1 as [|x l1]; [discriminate|]. injection Heq as <- Heq.
        destruct l1 as [|y l1].
        -- injection Heq as <-. repeat split; auto.
           ++ simpl. intros [H|[]]. discriminate.
           ++ intros x [<-|[]]. reflexivity.
        -- injection Heq as <- Heq. exfalso. apply Hnp. rewrite Heq.
           apply in_or_app. right. now left.
      * destruct l1 as [|y l1].
        -- injection Heq as <-. repeat split; auto. intros x [].
        -- injection Heq as <- Heq. exfalso. apply Hnp. rewrite Heq.
           apply in_or_app. right. now left.
  - split; [|split].
    + split.
      * intros H. exfalso. apply in_app_or in H; destruct H as [H|H].
        -- destruct onClick; simpl in H; intuition discriminate.
        -- simpl in H. tauto.
      * intros (Ht & Hpd & Hm). rewrite Ht, Hpd, Hm in Hp. discriminate.
    + destruct onClick; simpl; intuition (try discriminate; try congruence).
    + intros l1 l2 Heq. exfalso.
      assert (Hin : In PreventDefault (l1 ++ PreventDefault :: l2))
        by (apply in_or_app; right; now left).
      rewrite <- Heq in Hin. apply in_app_or in Hin as [H|H].
      * destruct onClick; simpl in H; intuition discriminate.
      * simpl in H. tauto.
Qed.

(** X14.  External navigation.  The press handler sets [location.href] if
    and only if there is no action, no target is set and the full URL starts
    with 'http'; it sets it to the full URL.  It saves the history first if
    and only if, in addition, the history index is 0.  It never both
    dispatches and navigates. *)
Theorem handlePress_external_navigation
    (redirect : Action.t -> Action.t) (action : option Action.t)
    (shouldDispatch : bool) (onClick : option (Event -> option bool))
    (target : option string) (isRedirect : bool) (fullUrl : string)
    (history : History) (e : Event) :
  let fx := handlePress redirect action shouldDispatch onClick target
              isRedirect fullUrl history e in
  let external :=
    action = None /\ (target = None \/ target = Some "")
    /\ String.prefix "http" fullUrl = true in
  (forall url, In (SetLocationHref url) fx <-> external /\ url = fullUrl)
  /\ (In SaveHistory fx <-> external /\ index history = 0%Z)
  /\ (external ->
      exists pre, fx = pre ++ (if Z.eqb (index history) 0
                               then [SaveHistory] else [])
                         ++ [SetLocationHref fullUrl]
                  /\ forall x, In x pre -> x = OnClick \/ x = PreventDefault)
  /\ ((exists a, In (Dispatch a) fx) ->
      forall url, ~ In (SetLocationHref url) fx).
Proof.
  cbv zeta. rewrite handlePress_effects. cbv zeta.
  rewrite <- noTarget_iff, <- indexOf_0_prefix.
  set (noTarget := match target with
                   | Some s => negb (nonEmpty s)
                   | None => true
                   end).
  set (c := match onClick with Some _ => [OnClick] | None => [] end).
  set (p := if noTarget && preventDefault e && negb (isModified e)
            then [PreventDefault] else []).
  assert (Hpre : forall x, In x (c ++ p) -> x = OnClick \/ x = PreventDefault).
  { intros x H. apply in_app_or in H; destruct H as [H|H].
    - subst c. destruct onClick; simpl in H; intuition.
    - subst p. destruct (_ && _ && _); simpl in H; intuition. }
  rewrite (app_assoc c p).
  revert Hpre. generalize (c ++ p). intros pre Hpre.
  assert (Hn1 : forall url, ~ In (SetLocationHref url) pre).
  { intros url H. apply Hpre in H as [H|H]; discriminate. }
  assert (Hn2 : ~ In SaveHistory pre).
  { intros H. apply Hpre in H as [H|H]; discriminate. }
  assert (Hn3 : forall a, ~ In (Dispatch a) pre).
  { intros a H. apply Hpre in H as [H|H]; discriminate. }
  assert (Hsplit : forall (tail : list effect) x,
             ~ In x pre -> In x (pre ++ tail) <-> In x tail).
  { intros tail x Hx. rewrite in_app_iff. tauto. }
  destruct action as [a|].
  - match goal with
    | |- context [pre ++ ?t] => set (tail := t)
    end.
    assert (Ht1 : forall url, ~ In (SetLocationHref url) tail).
    { intros url. subst tail. destruct (_ && _ && _ && _ && _ && _); simpl;
        intuition discriminate. }
    assert (Ht2 : ~ In SaveHistory tail).
    { subst tail. destruct (_ && _ && _ && _ && _ && _); simpl;
        intuition discriminate. }
    clearbody tail.
    split; [|split; [|split]].
    + intros url. rewrite Hsplit by apply Hn1. split.
      * intros H. now apply Ht1 in H.
      * intros ((H & _) & _). discriminate.
    + rewrite Hsplit by apply Hn2. split.
      * intros H. now apply Ht2 in H.
      * intros ((H & _) & _). discriminate.
    + intros (H & _). discriminate.
    + intros _ url. rewrite Hsplit by apply Hn1. apply Ht1.
  - destruct (noTarget && Z.eqb (indexOf fullUrl "http") 0) eqn:Hext.
    + apply andb_prop in Hext as [Ht Hh].
      split; [|split; [|split]].
      * intros url. rewrite <- noTarget_iff.
        fold noTarget. rewrite Hsplit by apply Hn1. rewrite in_app_iff. split.
        -- intros [H|H].
           ++ destruct (Z.eqb (index history) 0); simpl in H;
                intuition discriminate.
           ++ simpl in H. destruct H as [[= ->]|[]]. repeat split; auto.
        -- intros (_ & ->). right. now left.
      * rewrite Hsplit by apply Hn2. rewrite in_app_iff. split.
        -- intros [H|H]; [|simpl in H; intuition discriminate].
           destruct (Z.eqb_spec (index history) 0); [repeat split; auto|].
           simpl in H. tauto.
        -- intros (_ & Hi). rewrite Hi. left. now left.
      * intros _. exists pre. split; [reflexivity|exact Hpre].
      * intros (a & H) url _. revert H. rewrite Hsplit by apply Hn3.
        rewrite in_app_iff.
        destruct (Z.eqb (index history) 0); simpl; intuition discriminate.
    + rewrite app_nil_r.
      assert (Hno : ~ (None = None :> option Action.t
                       /\ noTarget = true
                       /\ Z.eqb (indexOf fullUrl "http") 0 = true)).
      { intros (_ & Ht & Hh). rewrite Ht, Hh in Hext. discriminate. }
      split; [|split; [|split]].
      * intros url. rewrite <- noTarget_iff.
        fold noTarget. split; [intros H; now apply Hn1 in H|tauto].
      * split; [intros H; now apply Hn2 in H|tauto].
      * tauto.
      * intros (a & H) url _. now apply Hn3 in H.
Qed.

(** ** A resolved link, pressed *)

(** X15.  A resolved link, pressed without a target.  If the link came
    without an action the press navigates to its URL and dispatches nothing;
    if it came with an action, and always when it was made from one, the
    press never navigates. *)
Theorem link_press_navigates_or_dispatches {R} (U : Utils R)
    (development : bool) (to : To) (routes : R)
    (basename currentPathname : string) (options : Options) (out : Output)
    (redirect : Action.t -> Action.t) (shouldDispatch : bool)
    (onClick : option (Event -> option bool)) (isRedirect : bool)
    (history : History) (e : Event) :
  toUrlAndAction U development to routes basename currentPathname options
  = inr out ->
  let fx := handlePress redirect (action (result out)) shouldDispatch onClick
              None isRedirect (fullUrl (result out)) history e in
  (action (result out) = None ->
     In (SetLocationHref (fullUrl (result out))) fx /\ dispatched fx = [])
  /\ (action (result out) <> None ->
      forall url, ~ In (SetLocationHref url) fx)
  /\ (forall a, to = ToAction a -> forall url, ~ In (SetLocationHref url) fx).
Proof.
  intros H. cbv zeta. rewrite handlePress_effects. cbv zeta.
  cbn [andb]. split; [|split].
  - intros Hnone. rewrite Hnone.
    pose proof (toUrlAndAction_no_action _ _ _ _ _ _ _ _ H Hnone) as Hp.
    rewrite <- indexOf_0_prefix in Hp. rewrite Hp. split.
    + apply in_or_app. right. apply in_or_app. right.
      apply in_or_app. right. now left.
    + rewrite !dispatched_app.
      destruct onClick, (preventDefault e && negb (isModified e)),
        (Z.eqb (index history) 0); reflexivity.
  - intros Hsome url. destruct (action (result out)) as [a|]; [|congruence].
    rewrite !in_app_iff. intros [H1|[H1|H1]].
    + destruct onClick; simpl in H1; intuition discriminate.
    + destruct (preventDefault e && negb (isModified e)); simpl in H1;
        intuition discriminate.
    + destruct (_ && _ && _ && _ && _); simpl in H1; intuition discriminate.
  - intros a -> url.
    pose proof (toUrlAndAction_keeps_action _ _ _ _ _ _ _ _ H) as Hsome.
    destruct (action (result out)) as [a'|]; [|congruence].
    rewrite !in_app_iff. intros [H1|[H1|H1]].
    + destruct onClick; simpl in H1; intuition discriminate.
    + destruct (preventDefault e && negb (isModified e)); simpl in H1;
        intuition discriminate.
    + destruct (_ && _ && _ && _ && _); simpl in H1; intuition discriminate.
Qed.

(** A link to an absolute URL, pressed on the first page of the history. *)
Lemma link_press_navigates_or_dispatches_witness :
  toUrlAndAction Samples.utils false (ToString "http://example.com/x") tt ""
    "/cur" (mkOptions None)
  = inr (mkOutput [] (mkResult "http://example.com/x" None))
  /\ handlePress (fun a => a) None true None None false
       "http://example.com/x" (mkHistory 0) Samples.leftClick
     = [PreventDefault; SaveHistory; SetLocationHref "http://example.com/x"]
  /\ In (SetLocationHref "http://example.com/x")
       (handlePress (fun a => a) None true None None false
          "http://example.com/x" (mkHistory 0) Samples.leftClick).
Proof.
  split; [reflexivity|]. split; [reflexivity|].
  exact (proj1 (proj1 (link_press_navigates_or_dispatches Samples.utils false
                         (ToString "http://example.com/x") tt "" "/cur"
                         (mkOptions None) _ (fun a => a) true None false
                         (mkHistory 0) Samples.leftClick eq_refl) eq_refl)).
Defined.


(** X16.  An external URL under a basename.  For a URL string that
    resolves to one starting with 'http', [toAction] is not consulted and
    the URL is returned without the basename; but when the basename argument
    is not empty the link comes with an action that holds the basename and
    nothing else, no [type] either.  A plain press on such a link dispatches
    that action and does not navigate. *)
Theorem toUrlAndAction_external_under_basename {R} (U : Utils R)
    (development : bool) (routes : R) (basename currentPathname : string)
    (options : Options) (s : string) :
  let url := resolvePathname U s currentPathname in
  s <> "" -> charAt 0 s <> "#" -> charAt 0 s <> "/" ->
  String.prefix "http" url = true ->
  (forall bns, basenames options = Some bns -> findBasename s bns = None) ->
  toUrlAndAction U development (ToString s) routes basename currentPathname
    options
  = inr (mkOutput []
           (mkResult url
              (if nonEmpty basename
               then Some (Action.mk None [] [] None (Some basename))
               else None)))
  /\ (nonEmpty basename = true ->
      forall redirect history e,
        defaultPrevented e = false -> isModified e = false ->
        button e = 0%Z ->
        let fx := handlePress redirect
                    (Some (Action.mk None [] [] None (Some basename))) true
                    None None false url history e in
        dispatched fx = [Action.mk None [] [] None (Some basename)]
        /\ forall href, ~ In (SetLocationHref href) fx).
Proof.
  intros url Hs Hhash Hslash Hext Hno. split.
  - unfold toUrlAndAction.
    assert (Hres : resolveTo U development (ToString s) routes basename options
                   = inr (mkResolved [] s basename None)).
    { destruct s; [congruence|reflexivity]. }
    rewrite Hres, (selectBasename_none _ _ _ Hno).
    destruct (String.eqb_spec (charAt 0 s) "#") as [|_]; [contradiction|].
    destruct (String.eqb_spec (charAt 0 s) "/") as [|_]; [contradiction|].
    cbn [negb]. fold url. rewrite indexOf_0_prefix, Hext. cbn [negb].
    destruct (nonEmpty basename); reflexivity.
  - intros _ redirect history e Hp Hm Hb. cbv zeta.
    rewrite handlePress_effects. cbv zeta. rewrite Hp, Hm, Hb.
    cbn [negb andb Z.eqb app]. split.
    + destruct (preventDefault e); reflexivity.
    + intros href. destruct (preventDefault e); simpl; intuition discriminate.
Qed.

(** An absolute URL linked under the basename '/base', and pressed. *)
Lemma toUrlAndAction_external_under_basename_witness :
  toUrlAndAction Samples.utils false (ToString "http://example.com/x") tt
    "/base" "/cur" (mkOptions None)
  = inr (mkOutput []
           (mkResult "http://example.com/x"
              (Some (Action.mk None [] [] None (Some "/base")))))
  /\ dispatched
       (handlePress (fun a => a)
          (Some (Action.mk None [] [] None (Some "/base"))) true None None
          false "http://example.com/x" (mkHistory 0) Samples.leftClick)
     = [Action.mk None [] [] None (Some "/base")].
Proof.
  destruct (toUrlAndAction_external_under_basename Samples.utils false tt
              "/base" "/cur" (mkOptions None) "http://example.com/x")
    as [H1 H2]; try discriminate; try reflexivity.
  split; [exact H1|].
  exact (proj1 (H2 eq_refl (fun a => a) (mkHistory 0) Samples.leftClick
                  eq_refl eq_refl eq_refl)).
Defined.

End LinkFacts.

(* ================================================================== *)
(** * Properties of the pathless-route middleware *)
(* ================================================================== *)

Section MiddlewareFacts.
Import Middleware.

(** With the default names the pipeline is: [beforeEnter], commit, [thunk],
    [onComplete]. *)
Lemma pipelineOf_default (E : Env) (regs : list string) :
  pipelineOf E [] (mkApi compose regs)
  = call E "beforeEnter"
      (commit E (call E "thunk" (call E "onComplete" (ret RUndefined)))).
Proof. reflexivity. Qed.

(** Closes [tr ++ e1 ++ ... = tr ++ ?evs] after the events were appended
    one at a time. *)
Ltac trace_eq :=
  rewrite <- ?app_assoc; simpl;
  first [ reflexivity | symmetry; apply app_nil_r ].

(** C4 (as amended).  In the pipeline of a pathless route the commit stands
    between the [beforeEnter] callback and the [thunk] and [onComplete]
    callbacks.  Whatever the callbacks answer, the action is committed at
    most once, and never when the route has [dispatch: false].  When no
    callback halts the chain, every callback the route defines runs, and the
    action is committed exactly once if and only if [dispatch] is not
    [false]. *)
Theorem pathlessRoute_commit_between_callbacks
    (E : Env) (regs : list string) (r : Registry.route) (a : Action.t)
    (tr : list event) :
  let pipeline := pipelineOf E [] (mkApi compose regs) in
  let req := mkReq (Some r) a tr in
  let commitEvents := match Registry.dispatch r with
                      | Some false => []
                      | _ => [Committed a]
                      end in
  (exists res req' evs,
      pipeline req = inr (res, req')
      /\ trace req' = tr ++ evs
      /\ commits evs <= 1
      /\ (Registry.dispatch r = Some false -> commits evs = 0))
  /\ ((forall name f q, callbackOf r name = Some f -> run E f q = Proceeds) ->
      exists res req' evs,
        pipeline req = inr (res, req')
        /\ trace req' = tr ++ evs
        /\ evs = called "beforeEnter" (Registry.beforeEnter r)
                   ++ commitEvents
                   ++ called "thunk" (Registry.thunk r)
                   ++ called "onComplete" (Registry.onComplete r)
        /\ (commits evs = 1 <-> Registry.dispatch r <> Some false)
        /\ action req' = match Registry.dispatch r with
                         | Some false => a
                         | _ => commitDispatch E a
                         end).
Proof.
  cbv zeta. rewrite pipelineOf_default.
  destruct r as [p th be oc d ty]. split.
  - unfold call, commit, callbackOf, ret, log; simpl.
    destruct be as [fb|], th as [ft|], oc as [fo|], d as [[|]|]; simpl;
      repeat match goal with
             | |- context [run E ?f ?q] => destruct (run E f q)
             end;
      simpl; do 3 eexists; (split; [reflexivity|]); simpl;
      (split; [trace_eq|]); unfold commits; simpl; split; try lia;
      try discriminate; intros; reflexivity.
  - intros Hrun. simpl.
    assert (Hb : forall f q, be = Some f -> run E f q = Proceeds).
    { intros f q ->. apply (Hrun "beforeEnter"). reflexivity. }
    assert (Ht : forall f q, th = Some f -> run E f q = Proceeds).
    { intros f q ->. apply (Hrun "thunk"). reflexivity. }
    assert (Ho : forall f q, oc = Some f -> run E f q = Proceeds).
    { intros f q ->. apply (Hrun "onComplete"). reflexivity. }
    clear Hrun.
    unfold call, commit, callbackOf, ret, log, called; simpl.
    destruct be as [fb|], th as [ft|], oc as [fo|], d as [[|]|]; simpl;
      rewrite ?(Hb _ _ eq_refl); simpl;
      rewrite ?(Ht _ _ eq_refl); simpl;
      rewrite ?(Ho _ _ eq_refl); simpl;
      simpl; do 3 eexists; (split; [reflexivity|]); simpl;
      (split; [trace_eq|]); (split; [reflexivity|]); (split; [|reflexivity]);
      unfold commits; simpl; split; intros; try congruence; try lia.
Qed.

(** A pathless route with [beforeEnter] and [thunk], no callback halting:
    the commit happens once, between the two. *)
Lemma pathlessRoute_commit_between_callbacks_witness :
  exists res req',
    pipelineOf Samples.passing [] Samples.api
      (mkReq (Some Samples.guarded) Samples.ping [])
    = inr (res, req')
    /\ trace req' = [Called "beforeEnter" (Registry.userFn 0);
                     Committed Samples.ping;
                     Called "thunk" (Registry.userFn 1)].
Proof.
  destruct (pathlessRoute_commit_between_callbacks Samples.passing []
              Samples.guarded Samples.ping []) as [_ H].
  destruct H as (res & req' & evs & Hrun & Htrace & -> & _).
  - intros name f q _. reflexivity.
  - exists res, req'. split; [exact Hrun|exact Htrace].
Defined.

(** C4 as stated fails: the route below has no [dispatch] flag, so the flag
    is not [false]; its [beforeEnter] answers [false], the chain halts there
    and the action is committed zero times, not once. *)
Lemma pathlessRoute_blocked_before_commit :
  Registry.dispatch Samples.guarded = None
  /\ pipelineOf Samples.blocking [] Samples.api
       (mkReq (Some Samples.guarded) Samples.ping [])
     = inr (RFalse,
            mkReq (Some Samples.guarded) Samples.ping
              [Called "beforeEnter" (Registry.userFn 0)])
  /\ commits [Called "beforeEnter" (Registry.userFn 0)] = 0.
Proof. repeat split. Qed.



(** ** Callback names *)


Lemma nameOr_fixed (i : nat) (d s : string) (names : list string) :
  nth_error names i = Some s -> s <> "" -> nameOr i d names = s.
Proof.
  intros H Hs. unfold nameOr. rewrite H. destruct s; congruence.
Qed.


Lemma callbackOf_empty (r : Registry.route) : callbackOf r "" = None.
Proof. reflexivity. Qed.






End MiddlewareFacts.
